(** * Voice Translator Pro: the session and translation-history state machine

    A shallow embedding of [app.py].  The Streamlit page, the microphone, the
    speech recogniser and the Google translation service are outside the
    program: the page's widgets are the fields of the session record, and every
    call of an outside service is a value of type [result], which says whether
    the call returned or raised.  [st.session_state] is a store; Streamlit
    refuses an assignment to the key of a widget that the running script has
    already instantiated, which is the case of the assignment to the text box
    in [text_input_translation].  The Swap Languages button, which only
    assigns to the keys of the two language boxes, is left out.  [st.error],
    [st.success] and [st.info] only draw on the page and are left out of the
    embedding of [app.py].  The earlier single-page variant [app2.py], which
    has no history limit, no favorites and no status class, is embedded in
    the module [App2], with its error boxes. *)

From Stdlib Require Import ZArith NArith Lia Bool Ascii.
From Stdlib Require Strings.String DecimalString.
From stdpp Require Import base decidable option numbers list sorting.
Import String.StringSyntax.
Delimit Scope string_scope with string.

(** ** Python values *)

(** A [str] is a sequence of Unicode code points. *)
Definition str : Type := list N.

(** An ASCII literal of the source. *)
Fixpoint lit (s : String.string) : str :=
  match s with
  | String.EmptyString => []
  | String.String a r => N_of_ascii a :: lit r
  end.
Arguments lit s%_string : simpl never.

(** Truth value of a [str]: [not s] holds of the empty string only. *)
Definition str_truthy (s : str) : bool :=
  match s with [] => false | _ :: _ => true end.

(** [c.isspace()]: the code points Python's [str.strip()] removes. *)
Definition py_isspace (c : N) : bool :=
  ((0x09 <=? c) && (c <=? 0x0D) || (0x1C <=? c) && (c <=? 0x20)
   || (c =? 0x85) || (c =? 0xA0) || (c =? 0x1680)
   || (0x2000 <=? c) && (c <=? 0x200A)
   || (c =? 0x2028) || (c =? 0x2029) || (c =? 0x202F)
   || (c =? 0x205F) || (c =? 0x3000))%N.

Fixpoint lstrip (s : str) : str :=
  match s with
  | [] => []
  | c :: r => if py_isspace c then lstrip r else s
  end.

Definition rstrip (s : str) : str := rev (lstrip (rev s)).

(** [s.strip()] *)
Definition strip (s : str) : str := rstrip (lstrip s).

Fixpoint starts_with (p s : str) : bool :=
  match p, s with
  | [], _ => true
  | _ :: _, [] => false
  | a :: p', b :: s' => (a =? b)%N && starts_with p' s'
  end.

(** [needle in hay] on strings: [needle] occurs in [hay] as a substring. *)
Fixpoint str_in (needle hay : str) : bool :=
  starts_with needle hay ||
  match hay with
  | [] => false
  | _ :: t => str_in needle t
  end.

(** [l[start:]], for any integer [start]. *)
Definition py_slice_from {A : Type} (start : Z) (l : list A) : list A :=
  let len := Z.of_nat (length l) in
  let i := if (start <? 0)%Z then Z.max (len + start) 0 else Z.min start len in
  drop (Z.to_nat i) l.

(** Exceptions: the class and [str(e)]. *)
Inductive exn_class : Type :=
  | IndexError
  | ValueError
  | UnicodeEncodeError
  | UnknownValueError   (* sr.UnknownValueError *)
  | RequestError        (* sr.RequestError *)
  | WaitTimeoutError    (* sr.WaitTimeoutError *)
  | StreamlitAPIException
  | OtherException.

Record exn : Type := mkExn { exn_cls : exn_class; exn_str : str }.

Inductive result (A : Type) : Type :=
  | Ok (a : A)
  | Raised (e : exn).
Arguments Ok {A} a.
Arguments Raised {A} e.

(** [l[-1]] *)
Definition py_last {A : Type} (l : list A) : result A :=
  match last l with
  | Some x => Ok x
  | None => Raised (mkExn IndexError (lit "list index out of range"))
  end.

(** A dict keeps its keys in insertion order; assigning to a key that is
    present replaces the value where the key stands. *)
Section Dict.
Context {K V : Type} `{EqDecision K}.

Definition dict : Type := list (K * V).

Fixpoint dict_get (d : dict) (k : K) : option V :=
  match d with
  | [] => None
  | (k', v) :: r => if decide (k' = k) then Some v else dict_get r k
  end.

Fixpoint dict_set (d : dict) (k : K) (v : V) : dict :=
  match d with
  | [] => [(k, v)]
  | (k', v') :: r =>
      if decide (k' = k) then (k, v) :: r else (k', v') :: dict_set r k v
  end.

Definition dict_keys (d : dict) : list K := d.*1.

(** [{key: value for ... in items}] *)
Definition dict_of (items : list (K * V)) : dict :=
  foldl (fun d kv => dict_set d kv.1 kv.2) [] items.
End Dict.
Arguments dict : clear implicits.

(** [max(keys, key=f)]: the first of the keys whose [f] is largest. *)
Fixpoint max_from {K : Type} (f : K -> Z) (best : K) (rest : list K) : K :=
  match rest with
  | [] => best
  | k :: r => if (f k >? f best)%Z then max_from f k r else max_from f best r
  end.

Definition py_max {K : Type} (keys : list K) (f : K -> Z) : result K :=
  match keys with
  | [] => Raised (mkExn ValueError (lit "max() arg is an empty sequence"))
  | k :: r => Ok (max_from f k r)
  end.

(** ASCII case mapping, what [str.lower] and [str.capitalize] do on ASCII. *)
Definition ascii_lower (c : N) : N :=
  if ((0x41 <=? c) && (c <=? 0x5A))%N then (c + 32)%N else c.

Definition ascii_upper (c : N) : N :=
  if ((0x61 <=? c) && (c <=? 0x7A))%N then (c - 32)%N else c.

Definition ascii_str_lower (s : str) : str := map ascii_lower s.

Definition ascii_str_capitalize (s : str) : str :=
  match s with
  | [] => []
  | c :: r => ascii_upper c :: map ascii_lower r
  end.

Definition is_ascii (c : N) : Prop := (c < 128)%N.
Definition is_ascii_upper (c : N) : Prop := (0x41 <= c <= 0x5A)%N.

(** What is known of the interpreter's [str.lower] and [str.capitalize]:
    their result on ASCII strings. *)
Definition lower_on_ascii (lower : str -> str) : Prop :=
  forall s, Forall is_ascii s -> lower s = ascii_str_lower s.

Definition capitalize_on_ascii (capitalize : str -> str) : Prop :=
  forall s, Forall is_ascii s -> capitalize s = ascii_str_capitalize s.

(** [s.encode('utf-8')]: a lone surrogate cannot be encoded. *)
Definition utf8_encode_char (c : N) : result (list N) :=
  (if c <? 0x80 then Ok [c]
   else if c <? 0x800 then Ok [0xC0 + c / 64; 0x80 + c mod 64]
   else if (0xD800 <=? c) && (c <=? 0xDFFF) then
     Raised (mkExn UnicodeEncodeError (lit "surrogates not allowed"))
   else if c <? 0x10000 then
     Ok [0xE0 + c / 4096; 0x80 + (c / 64) mod 64; 0x80 + c mod 64]
   else
     Ok [0xF0 + c / 262144; 0x80 + (c / 4096) mod 64;
         0x80 + (c / 64) mod 64; 0x80 + c mod 64])%N.

Fixpoint encode_utf8 (s : str) : result (list N) :=
  match s with
  | [] => Ok []
  | c :: r =>
      match utf8_encode_char c with
      | Raised e => Raised e
      | Ok b =>
          match encode_utf8 r with
          | Raised e => Raised e
          | Ok br => Ok (b ++ br)
          end
      end
  end.

(** ** The session state ([st.session_state]) *)

Record Settings : Type := mkSettings {
  max_history : Z;
  speech_timeout : Z;
  theme : str;
  show_stats : bool
}.

(** The dict stored under ['translated_text'] after a translation. *)
Record TranslatedText : Type := mkTranslatedText {
  shown_original : str;
  shown_translation : str;
  shown_from_lang : str;
  shown_to_lang : str
}.

(** An entry of ['conversation_history']; the speech path writes no
    ['input_type'] key. *)
Record HistoryEntry : Type := mkHistoryEntry {
  timestamp : str;
  original : str;
  translation : str;
  from_lang : str;
  to_lang : str;
  from_lang_name : str;
  to_lang_name : str;
  input_type : option str
}.

#[global] Instance HistoryEntry_eq_dec : EqDecision HistoryEntry.
Proof. solve_decision. Defined.

(** [st.session_state.app_state]; ['translated_text'] is [""] ([None] here)
    or the dict of the last translation. *)
Record AppState : Type := mkAppState {
  is_translating : bool;
  status : str;
  status_class : str;
  translated_text : option TranslatedText;
  conversation_history : list HistoryEntry;
  start_time : Z;
  total_translations : Z;
  favorites : list HistoryEntry;
  settings : Settings
}.

Record SessionState : Type := mkSessionState {
  app_state : AppState;
  text_input : str;
  current_from_lang : str;
  current_to_lang : str
}.

Definition default_settings : Settings :=
  mkSettings 10 5 (lit "light") true.

Definition initial_app_state (now : Z) : AppState :=
  mkAppState false (lit "Ready to translate") (lit "status-ready") None []
             now 0 [] default_settings.

Definition with_is_translating (b : bool) (a : AppState) : AppState :=
  mkAppState b (status a) (status_class a) (translated_text a)
    (conversation_history a) (start_time a) (total_translations a)
    (favorites a) (settings a).

Definition with_status (st cls : str) (a : AppState) : AppState :=
  mkAppState (is_translating a) st cls (translated_text a)
    (conversation_history a) (start_time a) (total_translations a)
    (favorites a) (settings a).

Definition with_translated_text (t : option TranslatedText) (a : AppState)
  : AppState :=
  mkAppState (is_translating a) (status a) (status_class a) t
    (conversation_history a) (start_time a) (total_translations a)
    (favorites a) (settings a).

Definition with_conversation_history (h : list HistoryEntry) (a : AppState)
  : AppState :=
  mkAppState (is_translating a) (status a) (status_class a) (translated_text a)
    h (start_time a) (total_translations a) (favorites a) (settings a).

Definition with_total_translations (n : Z) (a : AppState) : AppState :=
  mkAppState (is_translating a) (status a) (status_class a) (translated_text a)
    (conversation_history a) (start_time a) n (favorites a) (settings a).

Definition with_favorites (f : list HistoryEntry) (a : AppState) : AppState :=
  mkAppState (is_translating a) (status a) (status_class a) (translated_text a)
    (conversation_history a) (start_time a) (total_translations a) f
    (settings a).

Definition with_settings (c : Settings) (a : AppState) : AppState :=
  mkAppState (is_translating a) (status a) (status_class a) (translated_text a)
    (conversation_history a) (start_time a) (total_translations a)
    (favorites a) c.

Definition with_app_state (a : AppState) (s : SessionState) : SessionState :=
  mkSessionState a (text_input s) (current_from_lang s) (current_to_lang s).

Definition with_text_input (t : str) (s : SessionState) : SessionState :=
  mkSessionState (app_state s) t (current_from_lang s) (current_to_lang s).

Definition with_current_langs (f t : str) (s : SessionState) : SessionState :=
  mkSessionState (app_state s) (text_input s) f t.

(** ** Statements: a state and exception monad over the session *)

Definition M (A : Type) : Type := SessionState -> result A * SessionState.

Definition ret {A : Type} (a : A) : M A := fun s => (Ok a, s).

Definition bind {A B : Type} (m : M A) (k : A -> M B) : M B :=
  fun s =>
    match m s with
    | (Ok a, s') => k a s'
    | (Raised e, s') => (Raised e, s')
    end.

Definition raise {A : Type} (e : exn) : M A := fun s => (Raised e, s).

(** The outcome of a call of an outside service, or of a Python operation
    that may raise. *)
Definition call {A : Type} (r : result A) : M A := fun s => (r, s).

Definition get_session : M SessionState := fun s => (Ok s, s).
Definition get_app : M AppState := fun s => (Ok (app_state s), s).

Definition modify_app (f : AppState -> AppState) : M unit :=
  fun s => (Ok tt, with_app_state (f (app_state s)) s).

Definition modify_session (f : SessionState -> SessionState) : M unit :=
  fun s => (Ok tt, f s).

(** [try: body  except ... as e: handler e] *)
Definition try_except {A : Type} (body : M A) (handler : exn -> M A) : M A :=
  fun s =>
    match body s with
    | (Raised e, s') => handler e s'
    | r => r
    end.

(** [try: body  finally: cleanup] *)
Definition finally {A : Type} (body : M A) (cleanup : M unit) : M A :=
  fun s =>
    let (r, s') := body s in
    match cleanup s' with
    | (Ok _, s'') => (r, s'')
    | (Raised e, s'') => (Raised e, s'')
    end.

Declare Scope py_scope.
Delimit Scope py_scope with py.
Notation "x <- m ;; k" := (bind m (fun x => k))
  (at level 100, m at next level, right associativity) : py_scope.
Notation "m ;; k" := (bind m (fun _ => k))
  (at level 100, right associativity) : py_scope.

(** The session after a statement, whether it returned or raised. *)
Definition exec {A : Type} (m : M A) (s : SessionState) : SessionState :=
  snd (m s).

(** ** Streamlit: assigning to the key of a widget

    [st.session_state.<key> = value] is accepted while no widget with that
    key has been instantiated in the running script; after the widget has
    been instantiated Streamlit refuses the assignment with
    [StreamlitAPIException] and the value stays as it is. *)
Definition msg_widget_instantiated (key : str) : str :=
  lit "`st.session_state." ++ key
  ++ lit "` cannot be modified after the widget with key `" ++ key
  ++ lit "` is instantiated.".

Definition assign_widget_key (instantiated : bool) (key : str)
    (f : SessionState -> SessionState) : M unit :=
  if instantiated then
    raise (mkExn StreamlitAPIException (msg_widget_instantiated key))
  else modify_session f.

(** [main] instantiates the text area with key ["text_input"]
    (app.py:478-483) before the button whose press calls
    [text_input_translation] in the same run (app.py:485-491), the only
    call of that function. *)
Definition text_area_instantiated : bool := true.

(** ** Outside services *)

(** A [googletrans] result; only [.text] is read.  Such an object is always
    true in a condition. *)
Record Translated : Type := mkTranslated { text : str }.

(** [translator.translate(text, src=from_lang, dest=to_lang)] *)
Definition Translator : Type := str -> str -> str -> result Translated.

(** The microphone and the recogniser of one [translate_speech] call. *)
Record Speech : Type := mkSpeech {
  microphone : result unit;               (* with sr.Microphone() as source *)
  adjust_for_ambient_noise : result unit;
  listen : Z -> result unit;              (* timeout; the audio is opaque *)
  recognize_google : str -> result str    (* language -> spoken text *)
}.

(** ** Status texts *)

Definition status_ready : str := lit "status-ready".
Definition status_listening : str := lit "status-listening".
Definition status_processing : str := lit "status-processing".
Definition status_error : str := lit "status-error".

Definition msg_preparing : str :=
  [0x1F399; 0xFE0F]%N ++ lit " Preparing to listen...".
Definition msg_listening : str := [0x1F399; 0xFE0F]%N ++ lit " Listening...".
Definition msg_processing_speech : str :=
  [0x1F504]%N ++ lit " Processing speech...".
Definition msg_not_understood : str :=
  [0x2753]%N ++ lit " Could not understand audio".
Definition msg_unavailable : str :=
  [0x274C]%N ++ lit " Speech recognition service unavailable".
Definition msg_translating : str := [0x2728]%N ++ lit " Translating...".
Definition msg_complete : str := [0x2705]%N ++ lit " Translation complete".
Definition msg_translation_failed (e : exn) : str :=
  [0x274C]%N ++ lit " Translation failed: " ++ exn_str e.
Definition msg_error (e : exn) : str :=
  [0x274C]%N ++ lit " Error: " ++ exn_str e.
Definition msg_stopped : str := [0x1F6D1]%N ++ lit " Stopped".

(** ** pandas: [pd.DataFrame(history).to_csv(index=False)]

    The frame has one column per key, in the order the keys are first seen,
    and one record per dict; a key a dict lacks is written as an empty field.
    The text has a header line and one line per record, fields joined by
    commas, each line ended by a line feed; a field that holds a comma, a
    double quote, a line feed or a carriage return is put in double quotes,
    with its double quotes doubled. *)

Definition base_columns : list str :=
  [lit "timestamp"; lit "original"; lit "translation"; lit "from_lang";
   lit "to_lang"; lit "from_lang_name"; lit "to_lang_name"].

Definition has_input_type (h : list HistoryEntry) : bool :=
  existsb (fun e => bool_decide (is_Some (input_type e))) h.

Definition columns (h : list HistoryEntry) : list str :=
  base_columns ++ (if has_input_type h then [lit "input_type"] else []).

Definition cells (h : list HistoryEntry) (e : HistoryEntry) : list str :=
  [timestamp e; original e; translation e; from_lang e; to_lang e;
   from_lang_name e; to_lang_name e]
  ++ (if has_input_type h then [default [] (input_type e)] else []).

Definition csv_special (c : N) : bool :=
  ((c =? 0x2C) || (c =? 0x22) || (c =? 0x0A) || (c =? 0x0D))%N.

Definition csv_escape (c : N) : str :=
  if (c =? 0x22)%N then [0x22; 0x22]%N else [c].

Definition csv_field (f : str) : str :=
  if existsb csv_special f
  then [0x22]%N ++ flat_map csv_escape f ++ [0x22]%N
  else f.

Fixpoint join (sep : str) (fields : list str) : str :=
  match fields with
  | [] => []
  | [f] => f
  | f :: r => f ++ sep ++ join sep r
  end.

Definition csv_line (fields : list str) : str :=
  join [0x2C]%N (map csv_field fields) ++ [0x0A]%N.

Definition to_csv (h : list HistoryEntry) : str :=
  csv_line (columns h) ++ flat_map (fun e => csv_line (cells h e)) h.

(** The rows of a CSV text: its line feeds outside double quotes. *)
Definition csv_step (st : bool * nat) (c : N) : bool * nat :=
  if (c =? 0x22)%N then (negb st.1, st.2)
  else if (c =? 0x0A)%N && negb st.1 then (false, S st.2)
  else st.

Definition csv_rows (content : list N) : nat :=
  (foldl csv_step (false, 0) content).2.

(** The lines of a text: its line feeds. *)
Definition text_lines (content : list N) : nat :=
  length (List.filter (fun c => (c =? 0x0A)%N) content).

(** ** The program *)

Section App.
(** [googletrans.LANGUAGES], the items of a dict from code to name in its
    order, and the interpreter's [str.lower] and [str.capitalize]. *)
Variable LANGUAGES : list (str * str).
Variable lower : str -> str.
Variable capitalize : str -> str.

Local Open Scope py_scope.

(** [{name: code for code, name in LANGUAGES.items()}] *)
Definition language_mapping : dict str str :=
  dict_of (map (fun cn => (cn.2, cn.1)) LANGUAGES).

(** [{code: name for name, code in language_mapping.items()}] *)
Definition language_code_to_name : dict str str :=
  dict_of (map (fun nc => (nc.2, nc.1)) language_mapping).

Definition get_language_code (language_name : str) : str :=
  default language_name (dict_get language_mapping (lower language_name)).

Definition get_language_name (language_code : str) : str :=
  capitalize
    (default language_code (dict_get language_code_to_name language_code)).

Definition update_status (st cls : str) : M unit :=
  modify_app (with_status st cls).

Definition translate_text (translator : Translator)
    (txt from_lang to_lang : str) : M (option Translated) :=
  if negb (str_truthy (strip txt)) then ret None
  else
    try_except
      (result <- call (translator txt from_lang to_lang) ;;
       modify_app
         (fun a => with_total_translations (total_translations a + 1)%Z a) ;;
       ret (Some result))
      (fun e =>
         update_status (msg_translation_failed e) status_error ;;
         ret None).

Definition save_to_favorites : M unit :=
  a <- get_app ;;
  if bool_decide (is_Some (translated_text a)) then
    last_entry <- call (py_last (conversation_history a)) ;;
    modify_app (fun a => with_favorites (favorites a ++ [last_entry]) a)
  else ret tt.

(** The lines both translation paths share:
    [conversation_history.append(history_entry)], then the limit. *)
Definition append_history (history_entry : HistoryEntry) : M unit :=
  modify_app
    (fun a =>
       with_conversation_history
         (conversation_history a ++ [history_entry]) a).

Definition limit_history : M unit :=
  a <- get_app ;;
  if (Z.of_nat (length (conversation_history a))
        >? max_history (settings a))%Z
  then
    modify_app
      (with_conversation_history
         (py_slice_from (- max_history (settings a))
            (conversation_history a)))
  else ret tt.

Definition translate_speech (sp : Speech) (translator : Translator)
    (now : str) : M unit :=
  update_status msg_preparing status_processing ;;
  finally
    (try_except
       (call (microphone sp) ;;
        call (adjust_for_ambient_noise sp) ;;
        update_status msg_listening status_listening ;;
        a <- get_app ;;
        call (listen sp (speech_timeout (settings a))) ;;
        update_status msg_processing_speech status_processing ;;
        s <- get_session ;;
        spoken <-
          try_except
            (t <- call (recognize_google sp (current_from_lang s)) ;;
             ret (Some t))
            (fun e =>
               match exn_cls e with
               | UnknownValueError =>
                   update_status msg_not_understood status_error ;;
                   ret None
               | RequestError =>
                   update_status msg_unavailable status_error ;;
                   ret None
               | _ => raise e
               end) ;;
        match spoken with
        | None => ret tt
        | Some spoken_text =>
            update_status msg_translating status_processing ;;
            let timestamp := now in
            translation <-
              translate_text translator spoken_text
                (current_from_lang s) (current_to_lang s) ;;
            match translation with
            | None => ret tt
            | Some translation =>
                let translated := text translation in
                modify_app
                  (with_translated_text
                     (Some (mkTranslatedText spoken_text translated
                              (get_language_name (current_from_lang s))
                              (get_language_name (current_to_lang s))))) ;;
                append_history
                  (mkHistoryEntry timestamp spoken_text translated
                     (current_from_lang s) (current_to_lang s)
                     (get_language_name (current_from_lang s))
                     (get_language_name (current_to_lang s)) None) ;;
                limit_history ;;
                update_status msg_complete status_ready
            end
        end)
       (fun e => update_status (msg_error e) status_error))
    (modify_app (with_is_translating false)).

Definition text_input_translation (translator : Translator) (now : str)
    : M unit :=
  s <- get_session ;;
  let input_text := text_input s in
  if negb (str_truthy input_text) then ret tt
  else
    update_status msg_translating status_processing ;;
    let timestamp := now in
    translation <-
      translate_text translator input_text
        (current_from_lang s) (current_to_lang s) ;;
    match translation with
    | None => ret tt
    | Some translation =>
        let translated := text translation in
        modify_app
          (with_translated_text
             (Some (mkTranslatedText input_text translated
                      (get_language_name (current_from_lang s))
                      (get_language_name (current_to_lang s))))) ;;
        append_history
          (mkHistoryEntry timestamp input_text translated
             (current_from_lang s) (current_to_lang s)
             (get_language_name (current_from_lang s))
             (get_language_name (current_to_lang s))
             (Some (lit "text"))) ;;
        limit_history ;;
        assign_widget_key text_area_instantiated (lit "text_input")
          (with_text_input []) ;;
        update_status msg_complete status_ready
    end.

(** [export_history]: the CSV bytes, or [None] for an empty history. *)
Definition export_history : M (option (list N)) :=
  a <- get_app ;;
  match conversation_history a with
  | [] => ret None
  | _ :: _ =>
      content <- call (encode_utf8 (to_csv (conversation_history a))) ;;
      ret (Some content)
  end.

(** The counting loop of [display_stats]:
    [langs[target] = langs.get(target, 0) + 1] for each entry. *)
Definition count_targets_from (langs : dict str Z) (h : list HistoryEntry)
    : dict str Z :=
  foldl
    (fun langs entry =>
       let target := to_lang_name entry in
       dict_set langs target (default 0 (dict_get langs target) + 1)%Z)
    langs h.

Definition count_targets (h : list HistoryEntry) : dict str Z :=
  count_targets_from [] h.

(** The value [display_stats] shows as "Most Used Language":
    [max(langs, key=langs.get)], or the text "None" for no history. *)
Definition most_used_language (h : list HistoryEntry) : result str :=
  match h with
  | [] => Ok (lit "None")
  | _ :: _ =>
      let langs := count_targets h in
      py_max (dict_keys langs) (fun k => default 0%Z (dict_get langs k))
  end.

(** The list the History tab shows for a search term (before it is
    reversed for display). *)
Definition filtered_history (search_term : str) (h : list HistoryEntry)
    : list HistoryEntry :=
  if str_truthy search_term then
    List.filter
      (fun entry =>
         str_in (lower search_term) (lower (original entry))
         || str_in (lower search_term) (lower (translation entry)))
      h
  else h.

(** *** The handlers of [main] *)

Inductive action : Type :=
  | StartListening (sp : Speech) (translator : Translator) (now : str)
  | StopListening
  | TypeText (txt : str)
  | TranslateText (translator : Translator) (now : str)
  | SaveToFavorites
  | NewTranslation
  | ClearHistory
  | AddToFavorites (entry : HistoryEntry)
  | SetMaxHistory (n : Z)
  | SetSpeechTimeout (n : Z)
  | SetTheme (choice : str)
  | SetShowStats (b : bool)
  | ResetSettings
  | SelectLanguages (from_lang_name to_lang_name : str).

Definition modify_settings (f : Settings -> Settings) : M unit :=
  modify_app (fun a => with_settings (f (settings a)) a).

Definition handle (act : action) : M unit :=
  match act with
  | StartListening sp translator now =>
      modify_app (with_is_translating true) ;;
      translate_speech sp translator now
  | StopListening =>
      modify_app (with_is_translating false) ;;
      update_status msg_stopped status_ready
  | TypeText txt => modify_session (with_text_input txt)
  | TranslateText translator now => text_input_translation translator now
  | SaveToFavorites =>
      (* the button is drawn only when there is a translation *)
      a <- get_app ;;
      if bool_decide (is_Some (translated_text a)) then save_to_favorites
      else ret tt
  | NewTranslation =>
      a <- get_app ;;
      if bool_decide (is_Some (translated_text a)) then
        modify_app (with_translated_text None) ;;
        update_status (lit "Ready to translate") status_ready
      else ret tt
  | ClearHistory => modify_app (with_conversation_history [])
  | AddToFavorites entry =>
      a <- get_app ;;
      if bool_decide (entry ∈ favorites a) then ret tt
      else modify_app (fun a => with_favorites (favorites a ++ [entry]) a)
  | SetMaxHistory n =>
      modify_settings
        (fun c => mkSettings n (speech_timeout c) (theme c) (show_stats c))
  | SetSpeechTimeout n =>
      modify_settings
        (fun c => mkSettings (max_history c) n (theme c) (show_stats c))
  | SetTheme choice =>
      modify_settings
        (fun c =>
           mkSettings (max_history c) (speech_timeout c) (lower choice)
             (show_stats c))
  | SetShowStats b =>
      modify_settings
        (fun c => mkSettings (max_history c) (speech_timeout c) (theme c) b)
  | ResetSettings => modify_settings (fun _ => default_settings)
  | SelectLanguages from_lang_name to_lang_name =>
      modify_session
        (with_current_langs (get_language_code from_lang_name)
           (get_language_code to_lang_name))
  end.

(** What the widgets let through: the number inputs have a minimum and a
    maximum, the theme box two choices. *)
Definition widget_allows (act : action) : Prop :=
  match act with
  | SetMaxHistory n => (5 <= n <= 100)%Z
  | SetSpeechTimeout n => (1 <= n <= 15)%Z
  | SetTheme choice => choice = lit "Light" \/ choice = lit "Dark"
  | _ => True
  end.

Definition run_actions (acts : list action) (s : SessionState)
    : SessionState :=
  foldl (fun s act => exec (handle act) s) s acts.
End App.

(** ** Sample values for closed statements *)

Definition sample_LANGUAGES : list (str * str) :=
  [(lit "en", lit "english"); (lit "fr", lit "french");
   (lit "iw", lit "hebrew"); (lit "he", lit "hebrew");
   (lit "es", lit "spanish")].

(** A fresh session with English to Spanish selected. *)
Definition ready_session : SessionState :=
  mkSessionState (initial_app_state 0) [] (lit "en") (lit "es").

(** A translation service that answers every request. *)
Definition echo_translator : Translator :=
  fun txt _ to_lang => Ok (mkTranslated (to_lang ++ lit ":" ++ txt)).

(** ** Predicates of the statements *)

(** [length(History) <= maxHistory] *)
Definition history_bounded (s : SessionState) : Prop :=
  (Z.of_nat (length (conversation_history (app_state s)))
   <= max_history (settings (app_state s)))%Z.

(** What the limit leaves of a history: its last [n] entries when it is
    longer than [n]. *)
Definition limited (n : Z) (h : list HistoryEntry) : list HistoryEntry :=
  if (Z.of_nat (length h) >? n)%Z then py_slice_from (- n) h else h.

(** The translation step of an action succeeds with result [r]:
    [translate_text] returns [r], not [None]. *)
Definition translate_text_returns (translator : Translator)
    (txt from_lang to_lang : str) (s : SessionState) (r : Translated) : Prop :=
  (translate_text translator txt from_lang to_lang s).1 = Ok (Some r).

(** The entry a successful text translation writes. *)
Definition text_entry (LANGUAGES : list (str * str)) (capitalize : str -> str)
    (s : SessionState) (now txt : str) (r : Translated) : HistoryEntry :=
  mkHistoryEntry now txt (text r) (current_from_lang s) (current_to_lang s)
    (get_language_name LANGUAGES capitalize (current_from_lang s))
    (get_language_name LANGUAGES capitalize (current_to_lang s))
    (Some (lit "text")).

(** [needle] occurs in [hay] as a run of consecutive code points. *)
Definition substring (needle hay : str) : Prop :=
  exists before after, hay = before ++ needle ++ after.

(** The search term occurs in the original or in the translated text of the
    entry, letter case apart. *)
Definition entry_matches (lower : str -> str) (term : str) (e : HistoryEntry)
    : Prop :=
  substring (lower term) (lower (original e))
  \/ substring (lower term) (lower (translation e)).

(** How many entries of the history have [l] as the name of their target
    language. *)
Definition target_count (l : str) (h : list HistoryEntry) : nat :=
  length (filter (fun e => to_lang_name e = l) h).

Definition spanish_entry : HistoryEntry :=
  mkHistoryEntry (lit "2024-01-01 10:00:00") (lit "hello") (lit "hola")
    (lit "en") (lit "es") (lit "English") (lit "Spanish") None.

Definition french_entry : HistoryEntry :=
  mkHistoryEntry (lit "2024-01-01 10:01:00") (lit "hello") (lit "bonjour")
    (lit "en") (lit "fr") (lit "English") (lit "French") (Some (lit "text")).

(** A lone surrogate, which UTF-8 cannot encode, and text free of them. *)
Definition is_surrogate (c : N) : Prop := (0xD800 <= c <= 0xDFFF)%N.

Definition encodable (s : str) : Prop := Forall (fun c => ~ is_surrogate c) s.

(** The texts of an entry. *)
Definition entry_texts (e : HistoryEntry) : list str :=
  [timestamp e; original e; translation e; from_lang e; to_lang e;
   from_lang_name e; to_lang_name e; default [] (input_type e)].

(** An ASCII string without capital letters. *)
Definition lowercase_ascii (s : str) : Prop :=
  Forall (fun c => is_ascii c /\ ~ is_ascii_upper c) s.

(** A fresh session whose history limit is 2. *)
Definition session_with_limit_2 : SessionState :=
  mkSessionState
    (with_settings (mkSettings 2 5 (lit "light") true) (initial_app_state 0))
    [] (lit "en") (lit "es").

Definition lowercase_asciib (s : str) : bool :=
  forallb (fun c => (c <? 128)%N && negb ((0x41 <=? c)%N && (c <=? 0x5A)%N)) s.

(** Six text translations in a row. *)
Definition six_translations : list action :=
  concat
    (replicate 6
       [TypeText (lit "hello"); TranslateText echo_translator (lit "12:00")]).

(** A [translate_speech] call in which an outside service fails with [e]:
    the microphone, the noise adjustment, the listening, the recognition
    (which covers [sr.UnknownValueError] and [sr.RequestError]), or the
    translation of the spoken text. *)
Inductive speech_failure (sp : Speech) (translator : Translator)
    (s : SessionState) : exn -> Prop :=
  | microphone_fails e :
      microphone sp = Raised e -> speech_failure sp translator s e
  | adjust_fails e :
      microphone sp = Ok tt ->
      adjust_for_ambient_noise sp = Raised e ->
      speech_failure sp translator s e
  | listen_fails e :
      microphone sp = Ok tt ->
      adjust_for_ambient_noise sp = Ok tt ->
      listen sp (speech_timeout (settings (app_state s))) = Raised e ->
      speech_failure sp translator s e
  | recognition_fails e :
      microphone sp = Ok tt ->
      adjust_for_ambient_noise sp = Ok tt ->
      listen sp (speech_timeout (settings (app_state s))) = Ok tt ->
      recognize_google sp (current_from_lang s) = Raised e ->
      speech_failure sp translator s e
  | translation_fails spoken e :
      microphone sp = Ok tt ->
      adjust_for_ambient_noise sp = Ok tt ->
      listen sp (speech_timeout (settings (app_state s))) = Ok tt ->
      recognize_google sp (current_from_lang s) = Ok spoken ->
      str_truthy (strip spoken) = true ->
      translator spoken (current_from_lang s) (current_to_lang s) = Raised e ->
      speech_failure sp translator s e.

(** A microphone whose audio the recogniser does not understand. *)
Definition not_understood : Speech :=
  mkSpeech (Ok tt) (Ok tt) (fun _ => Ok tt)
    (fun _ => Raised (mkExn UnknownValueError [])).

(** ** Further definitions *)

(** Whitespace-only text (the empty text included). *)
Definition all_space (s : str) : Prop := Forall (fun c => py_isspace c = true) s.

(** A microphone and recogniser that hear [spoken]. *)
Definition hearing (spoken : str) : Speech :=
  mkSpeech (Ok tt) (Ok tt) (fun _ => Ok tt) (fun _ => Ok spoken).

(** A translation service that is down. *)
Definition failing_translator : Translator :=
  fun _ _ _ => Raised (mkExn OtherException (lit "timed out")).

(** The entry a successful speech translation writes. *)
Definition speech_entry (LANGUAGES : list (str * str)) (capitalize : str -> str)
    (s : SessionState) (now spoken : str) (r : Translated) : HistoryEntry :=
  mkHistoryEntry now spoken (text r) (current_from_lang s) (current_to_lang s)
    (get_language_name LANGUAGES capitalize (current_from_lang s))
    (get_language_name LANGUAGES capitalize (current_to_lang s))
    None.

(** The last [n] entries of a list. *)
Definition keep_last {A : Type} (n : nat) (l : list A) : list A :=
  drop (length l - n) l.

(** Typing a text and pressing Translate, once for each submission: the
    text, the translator's behaviour and the time of the press, with the
    result the translator gives. *)
Definition submission : Type := str * Translator * str * Translated.

Definition submit_all (subs : list submission) : list action :=
  flat_map
    (fun sub : submission =>
       [TypeText sub.1.1.1; TranslateText sub.1.1.2 sub.1.2])
    subs.

Definition submission_succeeds (s : SessionState) (sub : submission) : Prop :=
  ~ all_space sub.1.1.1
  /\ sub.1.1.2 sub.1.1.1 (current_from_lang s) (current_to_lang s) = Ok sub.2.

(** [length(History) <= totalTranslations] *)
Definition history_within_total (s : SessionState) : Prop :=
  (Z.of_nat (length (conversation_history (app_state s)))
   <= total_translations (app_state s))%Z.

(** Settings within the ranges of the widgets of the Settings tab. *)
Definition settings_valid (c : Settings) : Prop :=
  (5 <= max_history c <= 100)%Z
  /\ (1 <= speech_timeout c <= 15)%Z
  /\ (theme c = lit "light" \/ theme c = lit "dark").

(** *** The side bar of [main]: the two language boxes *)

(** [s <= t] on strings, code point by code point: the order of [sorted]. *)
Fixpoint str_leb (s t : str) : bool :=
  match s, t with
  | [], _ => true
  | _ :: _, [] => false
  | a :: s', b :: t' => (a <? b)%N || ((a =? b)%N && str_leb s' t')
  end.

Definition str_le (s t : str) : Prop := str_leb s t = true.

#[global] Instance str_le_dec (s t : str) : Decision (str_le s t).
Proof. unfold str_le. apply _. Defined.

(** [sorted(l)] *)
Definition py_sorted (l : list str) : list str := merge_sort str_le l.

(** [l.index(x)] *)
Fixpoint py_index (x : str) (l : list str) : result nat :=
  match l with
  | [] => Raised (mkExn ValueError (lit "x is not in list"))
  | y :: r =>
      if decide (y = x) then Ok 0%nat
      else match py_index x r with
           | Ok i => Ok (S i)
           | Raised e => Raised e
           end
  end.

(** [sorted(LANGUAGES.values())] *)
Definition all_languages (LANGUAGES : list (str * str)) : list str :=
  py_sorted LANGUAGES.*2.

(** [all_languages.index(name) if name in all_languages else 0] *)
Definition default_index (name : str) (all : list str) : result nat :=
  if bool_decide (name ∈ all) then py_index name all else Ok 0%nat.

(** The indices the two boxes start at; [%] by the length raises
    ZeroDivisionError when there is no language. *)
Definition default_language_indices (LANGUAGES : list (str * str))
    : result (nat * nat) :=
  let all := all_languages LANGUAGES in
  match default_index (lit "english") all with
  | Raised e => Raised e
  | Ok default_from_index =>
      match default_index (lit "spanish") all with
      | Raised e => Raised e
      | Ok default_to_index =>
          if decide (default_to_index = default_from_index) then
            match length all with
            | 0%nat =>
                Raised (mkExn OtherException (lit "integer modulo by zero"))
            | S _ =>
                Ok (default_from_index,
                    ((default_to_index + 1) mod length all)%nat)
            end
          else Ok (default_from_index, default_to_index)
      end
  end.

(** *** [display_stats] *)

(** [(later - earlier).seconds], the datetimes in microseconds: a timedelta
    is kept as days, seconds below a day and microseconds below a second. *)
Definition timedelta_seconds (later earlier : Z) : Z :=
  (((later - earlier) / 1000000) mod 86400)%Z.

(** [str(n)] of an integer. *)
Definition py_str_int (n : Z) : str :=
  lit (DecimalString.NilZero.string_of_int (Z.to_int n)).

Definition uptime_hours_minutes (now start : Z) : Z * Z :=
  let seconds := timedelta_seconds now start in
  ((seconds / 3600)%Z, ((seconds mod 3600) / 60)%Z).

(** [f"{hours}h {minutes}m"] *)
Definition uptime_str (now start : Z) : str :=
  let hm := uptime_hours_minutes now start in
  py_str_int hm.1 ++ lit "h " ++ py_str_int hm.2 ++ lit "m".

(** What [display_stats] puts on the page: the three metrics and, for a
    history that is not empty, the chart's two columns. *)
Record StatsView : Type := mkStatsView {
  metric_total : Z;
  metric_duration : str;
  metric_most_used : str;
  chart : option (list str * list Z)
}.

Definition display_stats (now : Z) : M (option StatsView) :=
  (a <- get_app ;;
   if negb (show_stats (settings a)) then ret None
   else
     let uptime := uptime_str now (start_time a) in
     most_used <- call (most_used_language (conversation_history a)) ;;
     let chart_data :=
       match conversation_history a with
       | [] => None
       | _ :: _ =>
           let lang_counts := count_targets (conversation_history a) in
           Some (dict_keys lang_counts, lang_counts.*2)
       end in
     ret (Some (mkStatsView (total_translations a) uptime most_used
                  chart_data)))%py.

(** *** The History tab of [main]: the list of entries *)

(** The expanders of the list, newest first: the number in the title
    [Entry {len(filtered_history)-i}], the entry, and whether the expander
    is open ([i==0]). *)
Definition history_rows (lower : str -> str) (search_term : str)
    (h : list HistoryEntry) : list (Z * HistoryEntry * bool) :=
  let filtered := filtered_history lower search_term h in
  imap
    (fun i entry =>
       ((Z.of_nat (length filtered) - Z.of_nat i)%Z, entry,
        bool_decide (i = 0%nat)))
    (reverse filtered).

(** ** app2.py: the plain variant of the translator

    The second script keeps four keys in the session (no settings, no
    favorites, no counters), speaks the translation aloud and reports the
    failures of its two helpers in error boxes on the page. *)

Module App2.

(** An entry of [conversation_history]. *)
Record Entry : Type := mkEntry {
  original : str;
  translation : str;
  from_lang : str;
  to_lang : str
}.

#[global] Instance Entry_eq_dec : EqDecision Entry.
Proof. solve_decision. Defined.

(** [st.session_state], and the error boxes [st.error] has put on the page
    during the run. *)
Record State : Type := mkState {
  is_translating : bool;
  status : str;
  translated_text : str;
  conversation_history : list Entry;
  current_from_lang : str;
  current_to_lang : str;
  error_boxes : list str
}.

Definition initial_state : State :=
  mkState false (lit "Ready to translate") [] [] [] [] [].

Definition M (A : Type) : Type := State -> result A * State.

Definition ret {A : Type} (a : A) : M A := fun s => (Ok a, s).

Definition bind {A B : Type} (m : M A) (k : A -> M B) : M B :=
  fun s =>
    match m s with
    | (Ok a, s') => k a s'
    | (Raised e, s') => (Raised e, s')
    end.

Definition raise {A : Type} (e : exn) : M A := fun s => (Raised e, s).
Definition call {A : Type} (r : result A) : M A := fun s => (r, s).
Definition get : M State := fun s => (Ok s, s).
Definition modify (f : State -> State) : M unit := fun s => (Ok tt, f s).

Definition try_except {A : Type} (body : M A) (handler : exn -> M A) : M A :=
  fun s =>
    match body s with
    | (Raised e, s') => handler e s'
    | r => r
    end.

Definition finally {A : Type} (body : M A) (cleanup : M unit) : M A :=
  fun s =>
    let (r, s') := body s in
    match cleanup s' with
    | (Ok _, s'') => (r, s'')
    | (Raised e, s'') => (Raised e, s'')
    end.

Declare Scope py2_scope.
Delimit Scope py2_scope with py2.
Notation "x <- m ;; k" := (bind m (fun x => k))
  (at level 100, m at next level, right associativity) : py2_scope.
Notation "m ;; k" := (bind m (fun _ => k))
  (at level 100, right associativity) : py2_scope.

Definition set_is_translating (b : bool) : M unit :=
  modify (fun s =>
    mkState b (status s) (translated_text s) (conversation_history s)
      (current_from_lang s) (current_to_lang s) (error_boxes s)).

Definition set_status (t : str) : M unit :=
  modify (fun s =>
    mkState (is_translating s) t (translated_text s) (conversation_history s)
      (current_from_lang s) (current_to_lang s) (error_boxes s)).

Definition set_translated_text (t : str) : M unit :=
  modify (fun s =>
    mkState (is_translating s) (status s) t (conversation_history s)
      (current_from_lang s) (current_to_lang s) (error_boxes s)).

(** [st.session_state.conversation_history.append(entry)] *)
Definition append_history (e : Entry) : M unit :=
  modify (fun s =>
    mkState (is_translating s) (status s) (translated_text s)
      (conversation_history s ++ [e])
      (current_from_lang s) (current_to_lang s) (error_boxes s)).

Definition set_current_langs (f t : str) : M unit :=
  modify (fun s =>
    mkState (is_translating s) (status s) (translated_text s)
      (conversation_history s) f t (error_boxes s)).

(** [st.error(message)] *)
Definition st_error (message : str) : M unit :=
  modify (fun s =>
    mkState (is_translating s) (status s) (translated_text s)
      (conversation_history s) (current_from_lang s) (current_to_lang s)
      (error_boxes s ++ [message])).

Definition msg_recognition_error : str :=
  [0x274C]%N ++ lit " Speech recognition error".

(** [gTTS(...).write_to_fp], the loading and the playing of the sound, up
    to the end of the playback: it ends or raises. *)
Definition TextToSpeech : Type := str -> str -> result unit.

Section Script.
Variable LANGUAGES : list (str * str).

(** [language_mapping.get(language_name, language_name)]; the mapping is
    built as in app.py. *)
Definition get_language_code (language_name : str) : str :=
  default language_name (dict_get (language_mapping LANGUAGES) language_name).

Definition translate_text (translator : Translator)
    (txt from_lang to_lang : str) : M (option Translated) :=
  (try_except
     (r <- call (translator txt from_lang to_lang) ;; ret (Some r))
     (fun e =>
        st_error (lit "Translation error: " ++ exn_str e) ;;
        ret None))%py2.

Definition text_to_speech (tts : TextToSpeech) (txt lang : str) : M unit :=
  (try_except
     (call (tts txt lang))
     (fun e => st_error (lit "Text-to-Speech error: " ++ exn_str e)))%py2.

(** The text shown as the translation. *)
Definition shown_text (from_lang to_lang spoken_text translated : str) : str :=
  lit "Original (" ++ from_lang ++ lit "): " ++ spoken_text ++ [10%N]
  ++ lit "Translation (" ++ to_lang ++ lit "): " ++ translated.

Definition translate_and_speak (sp : Speech) (translator : Translator)
    (tts : TextToSpeech) : M unit :=
  (set_status msg_preparing ;;
   finally
     (try_except
        (call (microphone sp) ;;
         call (adjust_for_ambient_noise sp) ;;
         set_status msg_listening ;;
         call (listen sp 5) ;;
         set_status msg_processing_speech ;;
         s <- get ;;
         spoken <-
           try_except
             (t <- call (recognize_google sp (current_from_lang s)) ;;
              ret (Some t))
             (fun e =>
                match exn_cls e with
                | UnknownValueError =>
                    set_status msg_not_understood ;;
                    ret None
                | RequestError =>
                    set_status msg_recognition_error ;;
                    ret None
                | _ => raise e
                end) ;;
         match spoken with
         | None => ret tt
         | Some spoken_text =>
             set_status msg_translating ;;
             translation <-
               translate_text translator spoken_text
                 (current_from_lang s) (current_to_lang s) ;;
             match translation with
             | None => ret tt
             | Some translation =>
                 let translated := text translation in
                 set_translated_text
                   (shown_text (current_from_lang s) (current_to_lang s)
                      spoken_text translated) ;;
                 append_history
                   (mkEntry spoken_text translated
                      (current_from_lang s) (current_to_lang s)) ;;
                 text_to_speech tts translated (current_to_lang s) ;;
                 set_status msg_complete
             end
         end)
        (fun e => set_status (msg_error e)))
     (set_is_translating false))%py2.

(** The handlers of [main]. *)
Inductive action : Type :=
  | SelectLanguages (from_lang_name to_lang_name : str)
  | StartListening (sp : Speech) (translator : Translator)
      (tts : TextToSpeech)
  | StopListening.

Definition handle (act : action) : M unit :=
  match act with
  | SelectLanguages from_lang_name to_lang_name =>
      set_current_langs (get_language_code from_lang_name)
        (get_language_code to_lang_name)
  | StartListening sp translator tts =>
      set_is_translating true ;;
      translate_and_speak sp translator tts
  | StopListening =>
      set_is_translating false ;;
      set_status msg_stopped
  end%py2.

(** The entries [main] lists:
    [reversed(st.session_state.conversation_history[-5:])]. *)
Definition shown_history (h : list Entry) : list Entry :=
  reverse (py_slice_from (-5) h).
End Script.

End App2.

(** What a run of [translate_and_speak] leaves of the session [s]: nothing
    new in the history and the shown translation as it was, or one new entry
    at the end of the history. *)
Definition app2_step (s s' : App2.State) : Prop :=
  App2.is_translating s' = false
  /\ App2.current_from_lang s' = App2.current_from_lang s
  /\ App2.current_to_lang s' = App2.current_to_lang s
  /\ App2.error_boxes s `prefix_of` App2.error_boxes s'
  /\ ((App2.conversation_history s' = App2.conversation_history s
       /\ App2.translated_text s' = App2.translated_text s)
      \/ (exists e,
            App2.conversation_history s'
            = App2.conversation_history s ++ [e]
            /\ App2.from_lang e = App2.current_from_lang s
            /\ App2.to_lang e = App2.current_to_lang s
            /\ App2.translated_text s'
               = App2.shown_text (App2.from_lang e) (App2.to_lang e)
                   (App2.original e) (App2.translation e)
            /\ App2.status s' = msg_complete)).

(** ** Further sample values *)

(** The session after "hello" was typed and translated. *)
Definition translated_session : SessionState :=
  exec
    (text_input_translation sample_LANGUAGES ascii_str_capitalize
       echo_translator (lit "12:00"))
    (with_text_input (lit "hello") ready_session).

Definition three_submissions : list submission :=
  [(lit "one", echo_translator, lit "12:01",
    mkTranslated (lit "es" ++ lit ":" ++ lit "one"));
   (lit "two", echo_translator, lit "12:02",
    mkTranslated (lit "es" ++ lit ":" ++ lit "two"));
   (lit "three", echo_translator, lit "12:03",
    mkTranslated (lit "es" ++ lit ":" ++ lit "three"))].

(** A session of app2.py with English to Spanish selected. *)
Definition app2_ready : App2.State :=
  App2.mkState false (lit "Ready to translate") [] [] (lit "en") (lit "es") [].

(** A machine without a sound device. *)
Definition no_speaker : App2.TextToSpeech :=
  fun _ _ => Raised (mkExn OtherException (lit "no audio device")).

(** * Properties *)

(** ** Dicts *)

Section DictFacts.
Context {K V : Type} `{EqDecision K}.
Implicit Types (d : dict K V) (k : K) (v : V).

Lemma dict_get_set d k v k' :
  dict_get (dict_set d k v) k'
  = if decide (k = k') then Some v else dict_get d k'.
Proof.
  induction d as [|[k0 v0] d IH]; simpl.
  - done.
  - destruct (decide (k0 = k)) as [->|Hne]; simpl.
    + by destruct (decide (k = k')).
    + rewrite IH. destruct (decide (k0 = k')) as [->|]; [|done].
      by rewrite decide_False.
Qed.

Lemma dict_keys_set_old d k v :
  k ∈ dict_keys d -> dict_keys (dict_set d k v) = dict_keys d.
Proof.
  unfold dict_keys. induction d as [|[k0 v0] d IH].
  - by intros ?%not_elem_of_nil.
  - intros Hin. cbn [dict_set]. destruct (decide (k0 = k)) as [->|Hne].
    + done.
    + rewrite !fmap_cons. f_equal. apply IH.
      apply elem_of_cons in Hin as [?|?]; [|done]. simpl in *.
      congruence.
Qed.

Lemma dict_keys_set_new d k v :
  k ∉ dict_keys d -> dict_keys (dict_set d k v) = dict_keys d ++ [k].
Proof.
  unfold dict_keys. induction d as [|[k0 v0] d IH].
  - done.
  - intros Hnin. cbn [dict_set].
    apply not_elem_of_cons in Hnin as [Hne Hnin]. simpl in Hne.
    rewrite decide_False by congruence.
    rewrite !fmap_cons. simpl. f_equal. by apply IH.
Qed.

Lemma dict_keys_set d k v :
  dict_keys (dict_set d k v)
  = if decide (k ∈ dict_keys d) then dict_keys d else dict_keys d ++ [k].
Proof.
  destruct (decide (k ∈ dict_keys d)).
  - by apply dict_keys_set_old.
  - by apply dict_keys_set_new.
Qed.

Lemma dict_get_is_Some d k : is_Some (dict_get d k) <-> k ∈ dict_keys d.
Proof.
  unfold dict_keys. induction d as [|[k0 v0] d IH]; simpl.
  - split; [by intros [? ?]|]. by intros ?%not_elem_of_nil.
  - rewrite elem_of_cons. destruct (decide (k0 = k)) as [->|Hne].
    + split; [by left|by eexists].
    + rewrite IH. split; [by right|]. intros [?|?]; [congruence|done].
Qed.

Lemma dict_get_elem_of d k v : dict_get d k = Some v -> (k, v) ∈ d.
Proof.
  induction d as [|[k0 v0] d IH]; simpl; [done|].
  destruct (decide (k0 = k)) as [->|Hne].
  - intros [= ->]. apply list_elem_of_here.
  - intros H. apply list_elem_of_further. by apply IH.
Qed.

Lemma dict_elem_of_get d k v :
  NoDup (dict_keys d) -> (k, v) ∈ d -> dict_get d k = Some v.
Proof.
  unfold dict_keys. induction d as [|[k0 v0] d IH]; simpl.
  - by intros _ ?%not_elem_of_nil.
  - intros [Hk0 Hnd]%NoDup_cons [Heq|Hin]%elem_of_cons.
    + injection Heq as -> ->. by rewrite decide_True.
    + destruct (decide (k0 = k)) as [->|Hne]; [|by apply IH].
      destruct Hk0. change k with (k, v).1. by apply list_elem_of_fmap_2.
Qed.

Lemma dict_set_NoDup d k v :
  NoDup (dict_keys d) -> NoDup (dict_keys (dict_set d k v)).
Proof.
  intros Hnd. rewrite dict_keys_set.
  destruct (decide (k ∈ dict_keys d)) as [|Hnin]; [done|].
  apply NoDup_app. split; [done|]. split.
  - intros x Hx ->%list_elem_of_singleton. done.
  - apply NoDup_singleton.
Qed.

(** A dict built from items, starting from [d]. *)
Lemma foldl_dict_set_NoDup (items : list (K * V)) d :
  NoDup (dict_keys d) ->
  NoDup (dict_keys (foldl (fun d kv => dict_set d kv.1 kv.2) d items)).
Proof.
  revert d. induction items as [|[k v] items IH]; intros d Hd; simpl.
  - done.
  - apply IH. by apply dict_set_NoDup.
Qed.

Lemma foldl_dict_set_get (items : list (K * V)) d k v :
  dict_get (foldl (fun d kv => dict_set d kv.1 kv.2) d items) k = Some v ->
  (k, v) ∈ items \/ dict_get d k = Some v.
Proof.
  revert d. induction items as [|[k0 v0] items IH]; intros d; simpl.
  - by right.
  - intros [Hin|Hget]%IH.
    + left. by apply list_elem_of_further.
    + rewrite dict_get_set in Hget.
      destruct (decide (k0 = k)) as [->|]; [|by right].
      injection Hget as ->. left. apply list_elem_of_here.
Qed.

Lemma foldl_dict_set_keys (items : list (K * V)) d k :
  k ∈ dict_keys (foldl (fun d kv => dict_set d kv.1 kv.2) d items) <->
  k ∈ items.*1 \/ k ∈ dict_keys d.
Proof.
  revert d. induction items as [|[k0 v0] items IH]; intros d; simpl.
  - split; [by right|]. by intros [?%not_elem_of_nil|?].
  - rewrite IH, dict_keys_set, elem_of_cons.
    destruct (decide (k0 ∈ dict_keys d)) as [Hin|Hnin].
    + split; [tauto|]. intros [[->|?]|?]; tauto.
    + rewrite elem_of_app, list_elem_of_singleton. split; [tauto|].
      intros [[->|?]|?]; tauto.
Qed.

Lemma dict_of_NoDup (items : list (K * V)) : NoDup (dict_keys (dict_of items)).
Proof. apply foldl_dict_set_NoDup. apply NoDup_nil_2. Qed.

Lemma dict_of_get (items : list (K * V)) k v :
  dict_get (dict_of items) k = Some v -> (k, v) ∈ items.
Proof. by intros [?|?]%foldl_dict_set_get. Qed.

Lemma dict_of_keys (items : list (K * V)) k :
  k ∈ dict_keys (dict_of items) <-> k ∈ items.*1.
Proof.
  unfold dict_of. rewrite foldl_dict_set_keys. split; [|by left].
  by intros [?|?%not_elem_of_nil].
Qed.
End DictFacts.

(** ** ASCII letter case *)

Lemma ascii_lower_upper c :
  is_ascii c -> ~ is_ascii_upper c -> ascii_lower (ascii_upper c) = c.
Proof.
  unfold is_ascii, is_ascii_upper, ascii_lower, ascii_upper. intros Ha Hu.
  destruct (N.leb_spec 0x61 c), (N.leb_spec c 0x7A); simpl;
    repeat match goal with
           | |- context [(?a <=? ?b)%N] => destruct (N.leb_spec a b)
           end; simpl; lia.
Qed.

Lemma ascii_lower_id c : ~ is_ascii_upper c -> ascii_lower c = c.
Proof.
  unfold is_ascii_upper, ascii_lower. intros Hu.
  destruct (N.leb_spec 0x41 c), (N.leb_spec c 0x5A); simpl; lia.
Qed.

Lemma ascii_upper_is_ascii c : is_ascii c -> is_ascii (ascii_upper c).
Proof.
  unfold is_ascii, ascii_upper.
  destruct (N.leb_spec 0x61 c), (N.leb_spec c 0x7A); simpl; lia.
Qed.

Lemma ascii_lower_is_ascii c : is_ascii c -> is_ascii (ascii_lower c).
Proof.
  unfold is_ascii, ascii_lower.
  destruct (N.leb_spec 0x41 c), (N.leb_spec c 0x5A); simpl; lia.
Qed.

Lemma lower_capitalize_lowercase (lower capitalize : str -> str) (s : str) :
  lower_on_ascii lower -> capitalize_on_ascii capitalize ->
  lowercase_ascii s -> lower (capitalize s) = s.
Proof.
  intros Hl Hc Hs.
  assert (Ha : Forall is_ascii s).
  { eapply Forall_impl; [exact Hs|]. by intros x [? _]. }
  rewrite (Hc s Ha). destruct s as [|c r]; simpl.
  - by apply Hl.
  - apply Forall_cons in Hs as [[Hc1 Hc2] Hr].
    apply Forall_cons in Ha as [_ Har].
    rewrite Hl.
    + unfold ascii_str_lower. simpl. rewrite ascii_lower_upper by done.
      assert (Hid : map ascii_lower r = r).
      { clear -Hr. induction Hr as [|x r [_ Hx] _ IH]; simpl; [done|].
        by rewrite ascii_lower_id, IH. }
      by rewrite !Hid.
    + apply Forall_cons. split; [by apply ascii_upper_is_ascii|].
      apply Forall_fmap. eapply Forall_impl; [exact Har|].
      intros x Hx. by apply ascii_lower_is_ascii.
Qed.

(** ** The first maximum *)

Lemma max_from_spec {K : Type} (f : K -> Z) (best : K) (rest : list K) :
  exists k1 k2,
    best :: rest = k1 ++ max_from f best rest :: k2
    /\ (forall k, k ∈ k1 -> (f k < f (max_from f best rest))%Z)
    /\ (forall k, k ∈ k2 -> (f k <= f (max_from f best rest))%Z).
Proof.
  revert best. induction rest as [|k r IH]; intros best; simpl.
  - exists [], []. split; [done|]. split; by intros ? ?%not_elem_of_nil.
  - destruct (Z.gtb_spec (f k) (f best)) as [Hgt|Hle].
    + destruct (IH k) as (k1 & k2 & Heq & H1 & H2).
      exists (best :: k1), k2. split; [by rewrite Heq at 1|]. split; [|done].
      intros x [->|Hx]%elem_of_cons; [|by apply H1].
      destruct k1 as [|y k1]; simpl in Heq.
      * injection Heq as Hk _. rewrite <- Hk. lia.
      * injection Heq as -> _. specialize (H1 y (list_elem_of_here _ _)). lia.
    + destruct (IH best) as (k1 & k2 & Heq & H1 & H2).
      destruct k1 as [|y k1]; simpl in Heq.
      * injection Heq as Hb Hr. exists [], (k :: k2). simpl.
        split; [by rewrite <- Hb at 1; rewrite Hr|]. split.
        -- by intros ? ?%not_elem_of_nil.
        -- intros x [->|Hx]%elem_of_cons; [|by apply H2]. by rewrite <- Hb.
      * injection Heq as -> Hr. exists (y :: k :: k1), k2. simpl.
        split; [by rewrite <- Hr|]. split; [|done].
        intros x [->|[->|Hx]%elem_of_cons]%elem_of_cons.
        -- apply H1, list_elem_of_here.
        -- specialize (H1 y (list_elem_of_here _ _)). lia.
        -- by apply H1, list_elem_of_further.
Qed.

(** ** Counting target languages *)

Lemma target_count_snoc l h e :
  target_count l (h ++ [e])
  = (target_count l h + if decide (to_lang_name e = l) then 1 else 0)%nat.
Proof.
  unfold target_count. rewrite filter_app, length_app. f_equal.
  rewrite filter_cons, filter_nil. by destruct (decide _).
Qed.

Lemma target_count_pos l h :
  (0 < target_count l h)%nat <-> l ∈ map to_lang_name h.
Proof.
  unfold target_count. induction h as [|e h IH]; simpl.
  - split; [lia|]. by intros ?%not_elem_of_nil.
  - rewrite filter_cons, elem_of_cons.
    destruct (decide (to_lang_name e = l)) as [->|Hne]; simpl.
    + split; [by left|lia].
    + rewrite IH. split; [by right|]. intros [?|?]; [congruence|done].
Qed.

Lemma count_targets_snoc h e :
  count_targets (h ++ [e])
  = dict_set (count_targets h) (to_lang_name e)
      (default 0 (dict_get (count_targets h) (to_lang_name e)) + 1)%Z.
Proof. unfold count_targets, count_targets_from. by rewrite foldl_snoc. Qed.

(** The dict holds, for each target language of the history, the number of
    its entries. *)
Lemma count_targets_get l h :
  dict_get (count_targets h) l
  = if decide (target_count l h = 0%nat) then None
    else Some (Z.of_nat (target_count l h)).
Proof.
  induction h as [|e h IH] using rev_ind; [done|].
  rewrite count_targets_snoc, dict_get_set, target_count_snoc.
  destruct (decide (to_lang_name e = l)) as [->|Hne].
  - rewrite (decide_False (P := (target_count l h + 1 = 0)%nat)) by lia.
    rewrite IH.
    destruct (decide (target_count l h = 0%nat)) as [->|]; simpl; f_equal; lia.
  - rewrite IH, Nat.add_0_r. done.
Qed.

Lemma count_targets_keys l h :
  l ∈ dict_keys (count_targets h) <-> l ∈ map to_lang_name h.
Proof.
  rewrite <- dict_get_is_Some, count_targets_get, <- target_count_pos.
  destruct (decide (target_count l h = 0%nat)) as [->|]; split.
  - by intros [? ?].
  - lia.
  - lia.
  - by eexists.
Qed.

Lemma count_targets_value l h :
  default 0%Z (dict_get (count_targets h) l) = Z.of_nat (target_count l h).
Proof.
  rewrite count_targets_get.
  by destruct (decide (target_count l h = 0%nat)) as [->|].
Qed.

(** The keys stand in the order in which the languages first occur: what
    precedes the first occurrence of a key in the history are keys that
    precede it in the dict. *)
Lemma count_targets_key_order h k1 m k2 :
  dict_keys (count_targets h) = k1 ++ m :: k2 ->
  exists before after,
    map to_lang_name h = before ++ m :: after
    /\ (m ∉ before)
    /\ (forall l, l ∈ before -> l ∈ k1).
Proof.
  revert k1 m k2. induction h as [|e h IH] using rev_ind; intros k1 m k2.
  - intros H. by destruct k1.
  - rewrite count_targets_snoc, dict_keys_set, map_app. simpl.
    destruct (decide (to_lang_name e ∈ dict_keys (count_targets h)))
      as [Hin|Hnin].
    + intros (before & after & Heq & Hm & Hb)%IH.
      exists before, (after ++ [to_lang_name e]).
      split; [by rewrite Heq, <- app_assoc|done].
    + destruct k2 as [|x k2 _] using rev_ind.
      * intros [<- <-]%app_inj_tail.
        exists (map to_lang_name h), []. split; [done|].
        split; [by rewrite <- count_targets_keys|].
        intros l. by rewrite count_targets_keys.
      * rewrite app_comm_cons, app_assoc. intros [Hk <-]%app_inj_tail.
        apply IH in Hk as (before & after & Heq & Hm & Hb).
        exists before, (after ++ [to_lang_name e]).
        split; [by rewrite Heq, <- app_assoc|done].
Qed.

(** ** CSV rows *)

Lemma csv_step_other st c :
  c <> 0x22%N -> c <> 0x0A%N -> csv_step st c = st.
Proof.
  intros H1 H2. unfold csv_step.
  apply N.eqb_neq in H1, H2. by rewrite H1, H2.
Qed.

Lemma csv_scan_plain st (f : str) :
  Forall (fun c => c <> 0x22%N /\ c <> 0x0A%N) f -> foldl csv_step st f = st.
Proof.
  induction 1 as [|c f [H1 H2] _ IH]; simpl; [done|].
  by rewrite csv_step_other.
Qed.

Lemma csv_scan_escaped n (f : str) :
  foldl csv_step (true, n) (flat_map csv_escape f) = (true, n).
Proof.
  induction f as [|c f IH]; simpl; [done|].
  rewrite foldl_app.
  assert (foldl csv_step (true, n) (csv_escape c) = (true, n)) as ->; [|done].
  unfold csv_escape. destruct (N.eqb_spec c 0x22) as [->|Hne]; [done|].
  simpl. unfold csv_step. apply N.eqb_neq in Hne. rewrite Hne. simpl.
  by rewrite andb_false_r.
Qed.

Lemma csv_special_false (f : str) :
  existsb csv_special f = false ->
  Forall (fun c => c <> 0x22%N /\ c <> 0x0A%N) f.
Proof.
  induction f as [|c f IH]; simpl; [by constructor|].
  intros [Hc Hf]%orb_false_iff. constructor; [|by apply IH].
  unfold csv_special in Hc.
  repeat (apply orb_false_iff in Hc as [Hc ?]).
  split; by apply N.eqb_neq.
Qed.

Lemma csv_scan_field n (f : str) :
  foldl csv_step (false, n) (csv_field f) = (false, n).
Proof.
  unfold csv_field. destruct (existsb csv_special f) eqn:Hsp.
  - simpl. rewrite foldl_app. change (csv_step (false, n) 34%N) with (true, n).
    by rewrite csv_scan_escaped.
  - by apply csv_scan_plain, csv_special_false.
Qed.

Lemma join_cons_cons (sep f g : str) (fields : list str) :
  join sep (f :: g :: fields) = f ++ sep ++ join sep (g :: fields).
Proof. reflexivity. Qed.

Lemma csv_scan_join n (fields : list str) :
  foldl csv_step (false, n) (join [0x2C]%N (map csv_field fields)) = (false, n).
Proof.
  induction fields as [|f fields IH]; simpl; [done|].
  destruct fields as [|g fields].
  - apply csv_scan_field.
  - change (map csv_field (g :: fields))
      with (csv_field g :: map csv_field fields) in *.
    cbv iota. rewrite !foldl_app, csv_scan_field. exact IH.
Qed.

Lemma csv_scan_line n (fields : list str) :
  foldl csv_step (false, n) (csv_line fields) = (false, S n).
Proof. unfold csv_line. by rewrite foldl_app, csv_scan_join. Qed.

Lemma csv_scan_lines n (rows : list (list str)) :
  foldl csv_step (false, n) (flat_map csv_line rows)
  = (false, (n + length rows)%nat).
Proof.
  revert n. induction rows as [|r rows IH]; intros n; simpl.
  - f_equal. lia.
  - rewrite foldl_app, csv_scan_line, IH. f_equal. lia.
Qed.

Lemma flat_map_map {A B C : Type} (f : A -> B) (g : B -> list C) (l : list A) :
  flat_map g (map f l) = flat_map (fun x => g (f x)) l.
Proof. induction l as [|x l IH]; simpl; [done|]. by rewrite IH. Qed.

(** The text has one row for the header and one for each entry. *)
Lemma to_csv_rows (h : list HistoryEntry) :
  csv_rows (to_csv h) = S (length h).
Proof.
  unfold csv_rows, to_csv.
  rewrite foldl_app, csv_scan_line, <- flat_map_map, csv_scan_lines.
  by rewrite length_map.
Qed.

(** ** UTF-8 *)

(** Encoding keeps the rows: the bytes of a code point above ASCII are
    neither quotes nor line feeds. *)
Lemma csv_step_high st k x : (128 <= k)%N -> csv_step st (k + x) = st.
Proof. intros Hk. apply csv_step_other; lia. Qed.

Lemma utf8_encode_char_scan st c bs :
  utf8_encode_char c = Ok bs -> foldl csv_step st bs = csv_step st c.
Proof.
  unfold utf8_encode_char.
  destruct (N.ltb_spec c 0x80); [by intros [= <-]|].
  rewrite (csv_step_other st c) by lia.
  repeat match goal with
         | |- context [if ?b then _ else _] => destruct b
         end; intros [= <-]; cbn [foldl];
    rewrite ?csv_step_high by lia; done.
Qed.

Lemma encode_utf8_scan (s : str) bs :
  encode_utf8 s = Ok bs ->
  forall st, foldl csv_step st bs = foldl csv_step st s.
Proof.
  revert bs. induction s as [|c s IH]; simpl; intros bs.
  - by intros [= <-].
  - destruct (utf8_encode_char c) as [b|] eqn:Hc; [|done].
    destruct (encode_utf8 s) as [br|] eqn:Hs; [|done].
    intros [= <-] st. rewrite foldl_app, (utf8_encode_char_scan _ _ _ Hc).
    by apply IH.
Qed.

Lemma encode_utf8_total (s : str) :
  encodable s -> exists bs, encode_utf8 s = Ok bs.
Proof.
  induction 1 as [|c s Hc _ [bs IH]]; simpl; [by eexists|].
  rewrite IH. unfold utf8_encode_char, is_surrogate in *.
  destruct (N.ltb_spec c 0x80); [by eexists|].
  destruct (N.ltb_spec c 0x800); [by eexists|].
  destruct (N.leb_spec 0xD800 c), (N.leb_spec c 0xDFFF); simpl;
    try lia; destruct (N.ltb_spec c 0x10000); by eexists.
Qed.

Lemma lit_encodable (s : String.string) : encodable (lit s).
Proof.
  induction s as [|a s IH]; [constructor|].
  constructor; [|done]. unfold is_surrogate.
  pose proof (N_ascii_bounded a). lia.
Qed.

Lemma csv_field_encodable (f : str) : encodable f -> encodable (csv_field f).
Proof.
  intros Hf. unfold csv_field. destruct (existsb csv_special f); [|done].
  assert (Hq : ~ is_surrogate 0x22%N) by (unfold is_surrogate; lia).
  apply Forall_app. split; [by constructor|].
  apply Forall_app. split; [|by constructor].
  induction Hf as [|c f Hc _ IH]; simpl; [constructor|].
  apply Forall_app. split; [|done].
  unfold csv_escape. destruct (c =? 0x22)%N; by repeat constructor.
Qed.

Lemma csv_line_encodable (fields : list str) :
  Forall encodable fields -> encodable (csv_line fields).
Proof.
  intros Hf. unfold csv_line.
  assert (Hc : forall c, (c < 128)%N -> ~ is_surrogate c)
    by (unfold is_surrogate; lia).
  apply Forall_app. split; [|constructor; [by apply Hc|constructor]].
  induction Hf as [|f fields Hf Hfs IH]; [constructor|].
  destruct fields as [|g fields]; [by apply csv_field_encodable|].
  rewrite !map_cons, join_cons_cons. rewrite map_cons in IH.
  apply Forall_app. split; [by apply csv_field_encodable|].
  apply Forall_app. split; [|exact IH].
  constructor; [by apply Hc|constructor].
Qed.

Lemma to_csv_encodable (h : list HistoryEntry) :
  Forall (fun e => Forall encodable (entry_texts e)) h -> encodable (to_csv h).
Proof.
  intros Hh. unfold to_csv. apply Forall_app. split.
  - apply csv_line_encodable. unfold columns. apply Forall_app. split.
    + unfold base_columns.
      repeat (apply Forall_cons_2; [apply lit_encodable|]). apply Forall_nil_2.
    + destruct (has_input_type h); [|apply Forall_nil_2].
      apply Forall_cons_2; [apply lit_encodable|apply Forall_nil_2].
  - unfold cells. generalize (has_input_type h) as b. intros b.
    induction Hh as [|e h' He _ IH]; cbn [flat_map]; [apply Forall_nil_2|].
    apply Forall_app. split; [|exact IH].
    apply csv_line_encodable. unfold entry_texts in He.
    repeat (apply Forall_cons in He as [? He]).
    apply Forall_app. split.
    + repeat (apply Forall_cons_2; [done|]). apply Forall_nil_2.
    + destruct b; [|apply Forall_nil_2].
      apply Forall_cons_2; [done|apply Forall_nil_2].
Qed.

Lemma lowercase_asciib_correct (s : str) :
  lowercase_asciib s = true -> lowercase_ascii s.
Proof.
  unfold lowercase_asciib, lowercase_ascii. induction s as [|c s IH]; simpl.
  - intros _. apply Forall_nil_2.
  - intros [[Ha Hu]%andb_true_iff Hs]%andb_true_iff.
    apply Forall_cons_2; [|by apply IH].
    unfold is_ascii, is_ascii_upper. apply N.ltb_lt in Ha.
    apply negb_true_iff, andb_false_iff in Hu. split; [done|].
    destruct Hu as [Hu|Hu]; apply N.leb_gt in Hu; lia.
Qed.

Lemma lowercase_names_correct (table : list (str * str)) :
  forallb (fun cn => lowercase_asciib cn.2) table = true ->
  forall c n, (c, n) ∈ table -> lowercase_ascii n.
Proof.
  intros Hall c n Hin. apply lowercase_asciib_correct.
  rewrite forallb_forall in Hall. apply (Hall (c, n)).
  by apply list_elem_of_In.
Qed.

(** ** Lines of the CSV text *)

Lemma text_lines_app (a b : list N) :
  text_lines (a ++ b) = (text_lines a + text_lines b)%nat.
Proof. unfold text_lines. by rewrite List.filter_app, length_app. Qed.

Lemma text_lines_escape (f : str) :
  text_lines (flat_map csv_escape f) = text_lines f.
Proof.
  induction f as [|c f IH]; [done|].
  change (c :: f) with ([c] ++ f). simpl flat_map.
  rewrite !text_lines_app, IH. f_equal.
  unfold csv_escape. by destruct (N.eqb_spec c 0x22) as [->|].
Qed.

Lemma text_lines_field (f : str) : text_lines (csv_field f) = text_lines f.
Proof.
  unfold csv_field. destruct (existsb csv_special f); [|done].
  rewrite !text_lines_app, text_lines_escape.
  change (text_lines [0x22%N]) with 0%nat. lia.
Qed.

Lemma text_lines_line (fields : list str) :
  Forall (fun f => text_lines f = 0%nat) fields ->
  text_lines (csv_line fields) = 1%nat.
Proof.
  intros Hf. unfold csv_line. rewrite text_lines_app.
  assert (text_lines (join [0x2C]%N (map csv_field fields)) = 0%nat) as ->;
    [|done].
  induction Hf as [|f fields Hf _ IH]; [done|].
  destruct fields as [|g fields].
  - simpl. by rewrite text_lines_field.
  - rewrite !map_cons, join_cons_cons. rewrite map_cons in IH.
    by rewrite !text_lines_app, text_lines_field, Hf, IH.
Qed.

Lemma text_lines_lit_columns (h : list HistoryEntry) :
  Forall (fun f => text_lines f = 0%nat) (columns h).
Proof.
  unfold columns. apply Forall_app. split.
  - unfold base_columns. repeat (apply Forall_cons_2; [reflexivity|]).
    apply Forall_nil_2.
  - destruct (has_input_type h); [|apply Forall_nil_2].
    apply Forall_cons_2; [reflexivity|apply Forall_nil_2].
Qed.

Lemma to_csv_lines (h : list HistoryEntry) :
  Forall (fun e => Forall (fun f => text_lines f = 0%nat) (entry_texts e)) h ->
  text_lines (to_csv h) = S (length h).
Proof.
  intros Hh. unfold to_csv.
  rewrite text_lines_app, (text_lines_line _ (text_lines_lit_columns h)).
  f_equal. unfold cells. generalize (has_input_type h) as b. intros b.
  induction Hh as [|e h' He _ IH]; cbn [flat_map]; [done|].
  rewrite text_lines_app, IH, text_lines_line; [done|].
  unfold entry_texts in He.
  repeat (apply Forall_cons in He as [? He]).
  apply Forall_app. split.
  - repeat (apply Forall_cons_2; [done|]). apply Forall_nil_2.
  - destruct b; [|apply Forall_nil_2].
    apply Forall_cons_2; [done|apply Forall_nil_2].
Qed.

Lemma utf8_encode_char_lines c bs :
  utf8_encode_char c = Ok bs -> text_lines bs = text_lines [c].
Proof.
  unfold utf8_encode_char, text_lines.
  destruct (N.ltb_spec c 0x80); [by intros [= <-]|].
  assert (Hc : (c =? 0x0A)%N = false) by (apply N.eqb_neq; lia).
  assert (Hhigh : forall k x, (128 <= k)%N -> (k + x =? 0x0A)%N = false).
  { intros k x Hk. apply N.eqb_neq. lia. }
  repeat match goal with
         | |- context [if ?b then _ else _] => destruct b
         end; intros [= <-]; cbn [List.filter];
    rewrite Hc, ?Hhigh by lia; done.
Qed.

Lemma encode_utf8_lines (s : str) bs :
  encode_utf8 s = Ok bs -> text_lines bs = text_lines s.
Proof.
  revert bs. induction s as [|c s IH]; simpl; intros bs.
  - by intros [= <-].
  - destruct (utf8_encode_char c) as [b|] eqn:Hc; [|done].
    destruct (encode_utf8 s) as [br|] eqn:Hs; [|done].
    intros [= <-]. change (c :: s) with ([c] ++ s).
    rewrite !text_lines_app, (utf8_encode_char_lines _ _ Hc).
    f_equal. by apply IH.
Qed.

(** ** Substring search *)

Lemma starts_with_prefix (p s : str) :
  starts_with p s = true <-> p `prefix_of` s.
Proof.
  revert s. induction p as [|a p IH]; intros s; simpl.
  - split; [intros _; apply prefix_nil | done].
  - destruct s as [|b s].
    + split; [done|]. intros [k Hk]. discriminate Hk.
    + rewrite andb_true_iff, N.eqb_eq, IH. split.
      * intros [-> Hp]. by apply prefix_cons.
      * intros [k Hk]. injection Hk as -> ->. split; [done|]. by exists k.
Qed.

Lemma str_in_substring (needle hay : str) :
  str_in needle hay = true <-> substring needle hay.
Proof.
  unfold substring. induction hay as [|c hay IH].
  - simpl. rewrite orb_false_r, starts_with_prefix. split.
    + intros [k Hk]. by exists [], k.
    + intros (before & after & H). symmetry in H.
      apply app_eq_nil in H as [_ H]. apply app_eq_nil in H as [-> _].
      apply prefix_nil.
  - simpl. rewrite orb_true_iff, starts_with_prefix, IH. split.
    + intros [[k Hk]|(before & after & H)].
      * by exists [], k.
      * exists (c :: before), after. by rewrite H.
    + intros ([|b before] & after & H).
      * left. by exists after.
      * right. injection H as _ H. by exists before, after.
Qed.

#[global] Instance substring_dec (needle hay : str) :
  Decision (substring needle hay).
Proof.
  destruct (str_in needle hay) eqn:H.
  - left. by apply str_in_substring.
  - right. intros Hs%str_in_substring. congruence.
Defined.

#[global] Instance entry_matches_dec (lower : str -> str) (term : str)
    (e : HistoryEntry) : Decision (entry_matches lower term e).
Proof. unfold entry_matches. apply _. Defined.

Section Properties.
Variable LANGUAGES : list (str * str).
Variable lower : str -> str.
Variable capitalize : str -> str.

Local Abbreviation handle := (handle LANGUAGES lower capitalize).
Local Abbreviation run_actions := (run_actions LANGUAGES lower capitalize).
Local Abbreviation text_input_translation :=
  (text_input_translation LANGUAGES capitalize).
Local Abbreviation translate_speech := (translate_speech LANGUAGES capitalize).
Local Abbreviation text_entry := (text_entry LANGUAGES capitalize).

(** *** Python helpers *)

Lemma py_slice_from_neg {A : Type} (n : Z) (l : list A) :
  (0 < n)%Z ->
  py_slice_from (- n) l = drop (length l - Z.to_nat n) l.
Proof.
  intros Hn. unfold py_slice_from.
  destruct (Z.ltb_spec (- n) 0) as [_|]; [|lia].
  f_equal. lia.
Qed.

Lemma py_slice_from_zero {A : Type} (l : list A) : py_slice_from (- 0) l = l.
Proof.
  unfold py_slice_from.
  destruct (Z.ltb_spec (- 0) 0) as [|_]; [lia|].
  replace (Z.to_nat (Z.min (- 0) (Z.of_nat (length l)))) with 0%nat by lia.
  apply drop_0.
Qed.

(** *** [translate_text] *)

Lemma translate_text_blank translator txt f t s :
  str_truthy (strip txt) = false ->
  translate_text translator txt f t s = (Ok None, s).
Proof. intros H. unfold translate_text. by rewrite H. Qed.

Lemma translate_text_ok translator txt f t s r :
  str_truthy (strip txt) = true ->
  translator txt f t = Ok r ->
  translate_text translator txt f t s =
    (Ok (Some r),
     with_app_state
       (with_total_translations (total_translations (app_state s) + 1)%Z
          (app_state s)) s).
Proof.
  intros H Hr. unfold translate_text. rewrite H. simpl.
  unfold try_except, bind, call. by rewrite Hr.
Qed.

Lemma translate_text_raised translator txt f t s e :
  str_truthy (strip txt) = true ->
  translator txt f t = Raised e ->
  translate_text translator txt f t s =
    (Ok None,
     with_app_state
       (with_status (msg_translation_failed e) status_error (app_state s)) s).
Proof.
  intros H Hr. unfold translate_text. rewrite H. simpl.
  unfold try_except, bind, call. by rewrite Hr.
Qed.

(** [translate_text] returns a result exactly when the text is not blank
    and the service answers. *)
Lemma translate_text_returns_iff translator txt f t s r :
  translate_text_returns translator txt f t s r <->
  str_truthy (strip txt) = true /\ translator txt f t = Ok r.
Proof.
  unfold translate_text_returns. split.
  - destruct (str_truthy (strip txt)) eqn:Hb.
    + destruct (translator txt f t) as [r'|e] eqn:Hr.
      * rewrite (translate_text_ok _ _ _ _ _ r') by done.
        simpl. intros [= ->]. done.
      * rewrite (translate_text_raised _ _ _ _ _ e) by done. done.
    + rewrite translate_text_blank by done. done.
  - intros [Hb Hr]. by rewrite (translate_text_ok _ _ _ _ _ r).
Qed.

Lemma strip_truthy txt : str_truthy (strip txt) = true -> str_truthy txt = true.
Proof. by destruct txt. Qed.

(** *** The append and the limit *)

Lemma limit_history_run s :
  limit_history s =
    (Ok tt,
     with_app_state
       (with_conversation_history
          (limited (max_history (settings (app_state s)))
             (conversation_history (app_state s)))
          (app_state s)) s).
Proof.
  unfold limit_history, limited, bind, get_app.
  destruct (_ >? _)%Z; [done|].
  unfold ret. by destruct s as [[]].
Qed.

Lemma limited_suffix n h : limited n h `suffix_of` h.
Proof.
  unfold limited, py_slice_from. destruct (_ >? _)%Z; [|done].
  apply suffix_drop.
Qed.

Lemma limited_length n h :
  (1 <= n)%Z -> (Z.of_nat (length (limited n h)) <= n)%Z.
Proof.
  intros Hn. unfold limited.
  destruct (Z.gtb_spec (Z.of_nat (length h)) n) as [Hgt|Hle]; [|done].
  rewrite py_slice_from_neg, length_drop by lia. lia.
Qed.

Lemma limited_length_exact n h :
  (1 <= n)%Z -> length (limited n h) = Nat.min (length h) (Z.to_nat n).
Proof.
  intros Hn. unfold limited.
  destruct (Z.gtb_spec (Z.of_nat (length h)) n) as [Hgt|Hle]; [|lia].
  rewrite py_slice_from_neg, length_drop by lia. lia.
Qed.

(** With a limit of at least 0 the newest entry is never dropped. *)
Lemma limited_snoc_last n h e :
  (0 <= n)%Z -> last (limited n (h ++ [e])) = Some e.
Proof.
  intros Hn. unfold limited.
  destruct (Z.gtb_spec (Z.of_nat (length (h ++ [e]))) n) as [Hgt|Hle];
    [|apply last_snoc].
  destruct (decide (n = 0%Z)) as [->|Hne].
  - rewrite py_slice_from_zero. apply last_snoc.
  - rewrite py_slice_from_neg by lia.
    rewrite length_app in *. simpl in *.
    rewrite drop_app_le by lia. apply last_snoc.
Qed.

(** *** A text translation that succeeds *)

Lemma text_input_translation_ok translator now s r :
  str_truthy (strip (text_input s)) = true ->
  translator (text_input s) (current_from_lang s) (current_to_lang s) = Ok r ->
  text_input_translation translator now s =
    (Raised
       (mkExn StreamlitAPIException
          (msg_widget_instantiated (lit "text_input"))),
     mkSessionState
       (mkAppState (is_translating (app_state s)) msg_translating
          status_processing
          (Some (mkTranslatedText (text_input s) (text r)
                   (get_language_name LANGUAGES capitalize (current_from_lang s))
                   (get_language_name LANGUAGES capitalize (current_to_lang s))))
          (limited (max_history (settings (app_state s)))
             (conversation_history (app_state s)
                ++ [text_entry s now (text_input s) r]))
          (start_time (app_state s))
          (total_translations (app_state s) + 1)%Z
          (favorites (app_state s)) (settings (app_state s)))
       (text_input s) (current_from_lang s) (current_to_lang s)).
Proof.
  intros Hb Hr. unfold text_input_translation.
  unfold bind at 1. unfold get_session.
  rewrite (strip_truthy _ Hb). change (negb true) with false. cbv iota.
  unfold bind at 1. unfold update_status at 1, modify_app at 1.
  unfold bind at 1. cbv beta iota.
  rewrite (translate_text_ok _ _ _ _ _ r) by done.
  unfold bind, modify_app, append_history, assign_widget_key,
    text_area_instantiated, raise, update_status.
  simpl. rewrite limit_history_run. reflexivity.
Qed.

(** *** Text that is empty or blank *)

Lemma text_input_translation_empty translator now s :
  text_input s = [] ->
  text_input_translation translator now s = (Ok tt, s).
Proof.
  intros H. unfold text_input_translation, bind, get_session.
  by rewrite H.
Qed.

Lemma text_input_translation_blank translator now s :
  str_truthy (text_input s) = true ->
  str_truthy (strip (text_input s)) = false ->
  text_input_translation translator now s =
    (Ok tt,
     with_app_state
       (with_status msg_translating status_processing (app_state s)) s).
Proof.
  intros Ht Hb. unfold text_input_translation.
  unfold bind at 1. unfold get_session. rewrite Ht.
  change (negb true) with false. cbv iota.
  unfold bind at 1. unfold update_status at 1, modify_app at 1.
  unfold bind at 1. cbv beta iota.
  by rewrite translate_text_blank.
Qed.

(** C1, at the text of three spaces in a fresh session: pressing
    Translate leaves the history, the shown translation and the counter as
    they were, but the status, which was "Ready to translate" of class
    status-ready, is now the "Translating..." text of class
    status-processing.  The claim has the status unchanged. *)
Theorem blank_text_changes_status (translator : Translator) (now : str) :
  let s := with_text_input (lit "   ") ready_session in
  let s' := exec (text_input_translation translator now) s in
  strip (text_input s) = []
  /\ conversation_history (app_state s') = conversation_history (app_state s)
  /\ translated_text (app_state s') = translated_text (app_state s)
  /\ total_translations (app_state s') = total_translations (app_state s)
  /\ status (app_state s) = lit "Ready to translate"
  /\ status_class (app_state s) = status_ready
  /\ status (app_state s') = msg_translating
  /\ status_class (app_state s') = status_processing
  /\ status (app_state s') <> status (app_state s).
Proof.
  intros s s'. subst s'. unfold exec.
  rewrite text_input_translation_blank by reflexivity.
  repeat split; try reflexivity. by vm_compute.
Qed.

(** C6: a text translation that succeeds on a text that is not empty adds
    exactly 1 to [total_translations] and appends exactly one entry, tagged
    with input type "text", at the end of the history: the history before
    with the new entry at its end is what the limit evicted followed by the
    history after, the new entry is the last one, and nothing is evicted
    while the history is shorter than the limit. *)
Theorem text_translation_counts_and_appends
    (translator : Translator) (now : str) (s : SessionState)
    (r : Translated) :
  text_input s <> [] ->
  translate_text_returns translator (text_input s)
    (current_from_lang s) (current_to_lang s) s r ->
  (0 <= max_history (settings (app_state s)))%Z ->
  let s' := exec (text_input_translation translator now) s in
  let e := text_entry s now (text_input s) r in
  total_translations (app_state s')
    = (total_translations (app_state s) + 1)%Z
  /\ input_type e = Some (lit "text")
  /\ original e = text_input s
  /\ translation e = text r
  /\ (exists evicted,
        conversation_history (app_state s) ++ [e]
          = evicted ++ conversation_history (app_state s'))
  /\ last (conversation_history (app_state s')) = Some e
  /\ ((Z.of_nat (length (conversation_history (app_state s)))
         < max_history (settings (app_state s)))%Z ->
      conversation_history (app_state s')
        = conversation_history (app_state s) ++ [e]).
Proof.
  intros _ [Hb Hr]%translate_text_returns_iff Hmax s' e.
  subst s'. unfold exec.
  rewrite (text_input_translation_ok _ _ _ r) by done. simpl.
  repeat split.
  - apply limited_suffix.
  - by apply limited_snoc_last.
  - intros Hlt. unfold limited.
    destruct (Z.gtb_spec
                (Z.of_nat (length (conversation_history (app_state s)
                                     ++ [text_entry s now (text_input s) r])))
                (max_history (settings (app_state s)))) as [Hgt|]; [|done].
    rewrite length_app in Hgt. simpl in Hgt. lia.
Qed.

Lemma run_actions_nil s : run_actions [] s = s.
Proof. reflexivity. Qed.

Lemma run_actions_cons act acts s :
  run_actions (act :: acts) s = run_actions acts (exec (handle act) s).
Proof. reflexivity. Qed.

Lemma type_then_translate_ok translator now s txt r :
  str_truthy (strip txt) = true ->
  translator txt (current_from_lang s) (current_to_lang s) = Ok r ->
  exec (handle (TranslateText translator now)) (exec (handle (TypeText txt)) s)
  = mkSessionState
      (mkAppState (is_translating (app_state s)) msg_translating
         status_processing
         (Some (mkTranslatedText txt (text r)
                  (get_language_name LANGUAGES capitalize (current_from_lang s))
                  (get_language_name LANGUAGES capitalize (current_to_lang s))))
         (limited (max_history (settings (app_state s)))
            (conversation_history (app_state s) ++ [text_entry s now txt r]))
         (start_time (app_state s))
         (total_translations (app_state s) + 1)%Z
         (favorites (app_state s)) (settings (app_state s)))
      txt (current_from_lang s) (current_to_lang s).
Proof.
  intros Hb Hr. unfold exec. simpl.
  by rewrite (text_input_translation_ok _ _ _ r).
Qed.

(** C5: from an empty history with [max_history] 2, three text
    translations T1, T2, T3 that succeed, in that order, leave the history
    [T2; T3] and raise [total_translations] from 0 to 3. *)
Theorem three_translations_keep_last_two
    (s : SessionState) (t1 t2 t3 now1 now2 now3 : str)
    (tr1 tr2 tr3 : Translator) (r1 r2 r3 : Translated) :
  conversation_history (app_state s) = [] ->
  max_history (settings (app_state s)) = 2%Z ->
  total_translations (app_state s) = 0%Z ->
  translate_text_returns tr1 t1 (current_from_lang s) (current_to_lang s) s r1 ->
  translate_text_returns tr2 t2 (current_from_lang s) (current_to_lang s) s r2 ->
  translate_text_returns tr3 t3 (current_from_lang s) (current_to_lang s) s r3 ->
  let s' :=
    run_actions
      [TypeText t1; TranslateText tr1 now1;
       TypeText t2; TranslateText tr2 now2;
       TypeText t3; TranslateText tr3 now3] s in
  conversation_history (app_state s')
    = [text_entry s now2 t2 r2; text_entry s now3 t3 r3]
  /\ total_translations (app_state s') = 3%Z.
Proof.
  intros Hh Hm Ht [Hb1 Hr1]%translate_text_returns_iff
    [Hb2 Hr2]%translate_text_returns_iff
    [Hb3 Hr3]%translate_text_returns_iff.
  rewrite !run_actions_cons, run_actions_nil.
  rewrite (type_then_translate_ok tr1 now1 s t1 r1) by done.
  rewrite (type_then_translate_ok tr2 now2 _ t2 r2) by done.
  rewrite (type_then_translate_ok tr3 now3 _ t3 r3) by done.
  simpl. rewrite Hh, Hm, Ht. split; reflexivity.
Qed.

(** *** Saving to favorites *)

Lemma save_to_favorites_nothing_shown s :
  translated_text (app_state s) = None ->
  save_to_favorites s = (Ok tt, s).
Proof.
  intros H. unfold save_to_favorites, bind, get_app. by rewrite H.
Qed.

Lemma save_to_favorites_appends_last s shown e :
  translated_text (app_state s) = Some shown ->
  last (conversation_history (app_state s)) = Some e ->
  save_to_favorites s =
    (Ok tt,
     with_app_state
       (with_favorites (favorites (app_state s) ++ [e]) (app_state s)) s).
Proof.
  intros H He. unfold save_to_favorites, bind, get_app, call, py_last.
  by rewrite H, He.
Qed.

Lemma save_to_favorites_no_history s shown :
  translated_text (app_state s) = Some shown ->
  conversation_history (app_state s) = [] ->
  save_to_favorites s =
    (Raised (mkExn IndexError (lit "list index out of range")), s).
Proof.
  intros H He. unfold save_to_favorites, bind, get_app, call, py_last.
  by rewrite H, He.
Qed.

(** C3, in the session reached by translating "hello" and then clearing
    the history: a translation is shown, the history is empty, and
    [save_to_favorites] raises [IndexError] to its caller, leaving the
    favorites as they were.  The claim has it never raise. *)
Theorem save_to_favorites_raises_after_clear (now : str) :
  let s :=
    run_actions
      [TypeText (lit "hello"); TranslateText echo_translator now;
       ClearHistory] ready_session in
  is_Some (translated_text (app_state s))
  /\ conversation_history (app_state s) = []
  /\ (handle SaveToFavorites s).1
     = Raised (mkExn IndexError (lit "list index out of range"))
  /\ favorites (app_state (exec (handle SaveToFavorites) s)) = [].
Proof.
  intros s. subst s.
  rewrite !run_actions_cons, run_actions_nil.
  rewrite (type_then_translate_ok _ _ _ _
             (mkTranslated (lit "es" ++ lit ":" ++ lit "hello")))
    by reflexivity.
  repeat split; try reflexivity. by eexists.
Qed.

(** *** The speech path *)

(** The session after a speech translation that wrote no result: only the
    status and [is_translating] differ. *)
Lemma translate_speech_failure sp translator now s e :
  speech_failure sp translator s e ->
  exists st,
    st <> [] /\
    translate_speech sp translator now s =
      (Ok tt,
       with_app_state
         (with_is_translating false
            (with_status st status_error (app_state s))) s).
Proof.
  intros Hf.
  unfold translate_speech, finally, try_except, bind, call, update_status,
    modify_app, get_app, get_session.
  destruct Hf as [e H1 | e H1 H2 | e H1 H2 H3 | e H1 H2 H3 H4
                 | spoken e H1 H2 H3 H4 Hb H5]; simpl.
  - rewrite H1. simpl. by exists (msg_error e).
  - rewrite H1, H2. simpl. by exists (msg_error e).
  - rewrite H1, H2, H3. simpl. by exists (msg_error e).
  - rewrite H1, H2, H3, H4. simpl.
    destruct (exn_cls e); simpl;
      first [ by exists (msg_error e)
            | by exists msg_not_understood
            | by exists msg_unavailable ].
  - rewrite H1, H2, H3, H4. simpl.
    rewrite (translate_text_raised _ _ _ _ _ e) by done. simpl.
    by exists (msg_translation_failed e).
Qed.

(** C4: when a speech translation fails at an outside service (the
    recogniser not understanding the audio, [sr.UnknownValueError], or any
    other failure of the microphone, the recogniser or the translator),
    the status afterwards has class status-error and a message that is not
    empty, and the history and the shown translation are as before. *)
Theorem speech_failure_sets_error_status
    (sp : Speech) (translator : Translator) (now : str) (s : SessionState)
    (e : exn) :
  speech_failure sp translator s e ->
  let s' := exec (translate_speech sp translator now) s in
  status_class (app_state s') = status_error
  /\ status (app_state s') <> []
  /\ conversation_history (app_state s')
     = conversation_history (app_state s)
  /\ translated_text (app_state s') = translated_text (app_state s).
Proof.
  intros Hf s'. subst s'. unfold exec.
  destruct (translate_speech_failure sp translator now s e Hf)
    as (st & Hst & ->).
  by simpl.
Qed.

(** What a speech translation does to the history and the settings. *)
Lemma translate_speech_history sp translator now s :
  let s' := exec (translate_speech sp translator now) s in
  settings (app_state s') = settings (app_state s)
  /\ (conversation_history (app_state s')
        = conversation_history (app_state s)
      \/ exists e,
           conversation_history (app_state s')
           = limited (max_history (settings (app_state s)))
               (conversation_history (app_state s) ++ [e])).
Proof.
  unfold exec, translate_speech, finally, try_except, bind, call,
    update_status, modify_app, get_app, get_session. simpl.
  destruct (microphone sp) as [[]|]; simpl; [|by auto].
  destruct (adjust_for_ambient_noise sp) as [[]|]; simpl; [|by auto].
  destruct (listen sp _) as [[]|]; simpl; [|by auto].
  destruct (recognize_google sp _) as [spoken|e]; simpl.
  - destruct (str_truthy (strip spoken)) eqn:Hb.
    + destruct (translator spoken (current_from_lang s) (current_to_lang s))
        as [r|e] eqn:Hr.
      * rewrite (translate_text_ok _ _ _ _ _ r) by done. simpl.
        unfold append_history, modify_app, bind. simpl.
        rewrite limit_history_run. simpl. split; [done|]. right.
        by eexists.
      * rewrite (translate_text_raised _ _ _ _ _ e) by done. simpl. auto.
    + rewrite translate_text_blank by done. simpl. auto.
  - destruct (exn_cls e); simpl; auto.
Qed.

Lemma text_input_translation_raised translator now s e :
  str_truthy (strip (text_input s)) = true ->
  translator (text_input s) (current_from_lang s) (current_to_lang s)
    = Raised e ->
  text_input_translation translator now s =
    (Ok tt,
     with_app_state
       (with_status (msg_translation_failed e) status_error (app_state s)) s).
Proof.
  intros Hb Hr. unfold text_input_translation.
  unfold bind at 1. unfold get_session.
  rewrite (strip_truthy _ Hb). change (negb true) with false. cbv iota.
  unfold bind at 1. unfold update_status at 1, modify_app at 1.
  unfold bind at 1. cbv beta iota.
  by rewrite (translate_text_raised _ _ _ _ _ e).
Qed.

Lemma text_input_translation_history translator now s :
  let s' := exec (text_input_translation translator now) s in
  settings (app_state s') = settings (app_state s)
  /\ (conversation_history (app_state s')
        = conversation_history (app_state s)
      \/ exists e,
           conversation_history (app_state s')
           = limited (max_history (settings (app_state s)))
               (conversation_history (app_state s) ++ [e])).
Proof.
  unfold exec.
  destruct (text_input s) as [|c txt] eqn:Ht.
  { rewrite text_input_translation_empty by done. simpl. auto. }
  destruct (str_truthy (strip (text_input s))) eqn:Hb.
  - destruct (translator (text_input s) (current_from_lang s)
                (current_to_lang s)) as [r|e] eqn:Hr.
    + rewrite (text_input_translation_ok _ _ _ r) by done. simpl.
      split; [done|]. right. by eexists.
    + rewrite (text_input_translation_raised _ _ _ e) by done. simpl. auto.
  - rewrite text_input_translation_blank by first [done | by rewrite Ht].
    simpl. auto.
Qed.

Lemma save_to_favorites_history s :
  conversation_history (app_state (save_to_favorites s).2)
  = conversation_history (app_state s).
Proof.
  unfold save_to_favorites, bind, get_app, call, py_last.
  case_bool_decide; simpl; [|done].
  by destruct (last (conversation_history (app_state s))).
Qed.

(** Every handler leaves the history as it was, empties it, or appends one
    entry and applies the limit. *)
Lemma handle_history act s :
  let s' := exec (handle act) s in
  conversation_history (app_state s') = conversation_history (app_state s)
  \/ conversation_history (app_state s') = []
  \/ exists e,
       conversation_history (app_state s')
       = limited (max_history (settings (app_state s)))
           (conversation_history (app_state s) ++ [e]).
Proof.
  destruct act; simpl.
  - destruct (translate_speech_history sp translator now
                (with_app_state (with_is_translating true (app_state s)) s))
      as [_ [H|H]]; simpl in H; unfold exec, bind, modify_app in *;
      simpl in *; auto.
  - auto.
  - auto.
  - destruct (text_input_translation_history translator now s) as [_ [H|H]];
      auto.
  - unfold exec, bind, get_app. case_bool_decide; simpl; [|auto].
    left. apply save_to_favorites_history.
  - unfold exec, bind, get_app. case_bool_decide; simpl; auto.
  - auto.
  - unfold exec, bind, get_app. case_bool_decide; simpl; auto.
  - auto.
  - auto.
  - auto.
  - auto.
  - auto.
  - auto.
Qed.

(** *** The history bound *)

Lemma set_max_history_keeps_history n s :
  conversation_history (app_state (exec (handle (SetMaxHistory n)) s))
  = conversation_history (app_state s).
Proof. reflexivity. Qed.

(** Only the settings actions change the limit, and they leave the history
    as it is. *)
Lemma handle_history_limit act s :
  let s' := exec (handle act) s in
  max_history (settings (app_state s'))
    = max_history (settings (app_state s))
  \/ conversation_history (app_state s') = conversation_history (app_state s)
     /\ ((exists n, act = SetMaxHistory n) \/ act = ResetSettings).
Proof.
  destruct act; simpl.
  - destruct (translate_speech_history sp translator now
                (with_app_state (with_is_translating true (app_state s)) s))
      as [H _]; simpl in H; unfold exec, bind, modify_app in *;
      simpl in *. left. by rewrite H.
  - by left.
  - by left.
  - destruct (text_input_translation_history translator now s) as [H _].
    left. by rewrite H.
  - unfold exec, bind, get_app. case_bool_decide; simpl; [|by left].
    unfold save_to_favorites, bind, get_app, call, py_last.
    case_bool_decide; simpl; [|by left].
    destruct (last (conversation_history (app_state s))); by left.
  - unfold exec, bind, get_app. case_bool_decide; simpl; by left.
  - by left.
  - unfold exec, bind, get_app. case_bool_decide; simpl; by left.
  - right. split; [done|]. left. by eexists.
  - by left.
  - by left.
  - by left.
  - right. split; [done|]. by right.
  - by left.
Qed.

(** C2, amended: at a limit of at least 1, an action that does not lower
    [max_history] keeps [length(History) <= maxHistory] when it held
    before.  The history after an action is the history before, or empty,
    or the history before with one entry appended and only as many of the
    oldest entries evicted as exceed the limit, in which case the newest
    entry is kept as the last one and the bound holds whatever the length
    was before.  Updating or resetting [max_history] leaves the history as
    it is, without truncation: after an action that changes the limit the
    bound holds exactly when the length of the history is at most the new
    limit. *)
Theorem history_bound_kept_unless_limit_lowered
    (act : action) (s : SessionState) :
  (1 <= max_history (settings (app_state s)))%Z ->
  let s' := exec (handle act) s in
  let h := conversation_history (app_state s) in
  let h' := conversation_history (app_state s') in
  let limit := max_history (settings (app_state s)) in
  let limit' := max_history (settings (app_state s')) in
  ((limit <= limit')%Z -> history_bounded s -> history_bounded s')
  /\ (h' = h
      \/ h' = []
      \/ exists e evicted,
           h ++ [e] = evicted ++ h'
           /\ last h' = Some e
           /\ length h' = Nat.min (length h + 1) (Z.to_nat limit)
           /\ limit' = limit
           /\ history_bounded s')
  /\ (limit' <> limit ->
      h' = h
      /\ (history_bounded s' <-> (Z.of_nat (length h) <= limit')%Z))
  /\ (forall n, act = SetMaxHistory n -> h' = h /\ limit' = n)
  /\ (act = ResetSettings -> h' = h /\ limit' = 10%Z).
Proof.
  intros Hmax s' h h' limit limit'.
  assert (Hchange : limit' <> limit -> h' = h).
  { intros Hne. destruct (handle_history_limit act s) as [H|[H _]]; done. }
  assert (Hlim : forall e,
             limit' = limit -> h' = limited limit (h ++ [e]) ->
             history_bounded s').
  { intros e Hsame He. change (Z.of_nat (length h') <= limit')%Z.
    rewrite Hsame, He. by apply limited_length. }
  split; [|split; [|split; [|split]]].
  - intros Hle Hb. change (Z.of_nat (length h) <= limit)%Z in Hb.
    change (Z.of_nat (length h') <= limit')%Z.
    destruct (decide (limit' = limit)) as [Hsame|Hne].
    + destruct (handle_history act s) as [H|[H|[e H]]]; fold s' h h' in H.
      * rewrite H. lia.
      * rewrite H. simpl. lia.
      * by apply (Hlim e).
    + rewrite (Hchange Hne). lia.
  - destruct (handle_history act s) as [H|[H|[e H]]]; fold s' h h' in H.
    + by left.
    + by right; left.
    + destruct (decide (limit' = limit)) as [Hsame|Hne].
      * right; right. fold limit in H.
        destruct (limited_suffix limit (h ++ [e])) as [evicted Hev].
        exists e, evicted. rewrite H. split; [done|]. split; [|split].
        -- apply limited_snoc_last. lia.
        -- rewrite limited_length_exact, length_app by done. done.
        -- split; [done|]. by apply (Hlim e).
      * left. by apply Hchange.
  - intros Hne. split; [by apply Hchange|].
    change (history_bounded s') with (Z.of_nat (length h') <= limit')%Z.
    by rewrite (Hchange Hne).
  - intros n ->. done.
  - intros ->. done.
Qed.

(** *** Searching the history *)


(** *** The language directory *)

(** The codes of the directory are those [language_mapping] maps a name
    to. *)
Lemma directory_codes code :
  code ∈ dict_keys (language_code_to_name LANGUAGES) <->
  code ∈ (language_mapping LANGUAGES).*2.
Proof.
  unfold language_code_to_name. rewrite dict_of_keys.
  by rewrite <- list_fmap_compose.
Qed.

(** C10: for every code of the language directory, the display name of
    the code converts back to the code, although the display name is
    capitalized: [get_language_code(get_language_name(code)) == code].
    The names of [LANGUAGES] are lower-case ASCII, as googletrans has
    them, and [str.lower] and [str.capitalize] act on ASCII strings as
    Python defines them. *)
Theorem language_code_round_trip (code : str) :
  lower_on_ascii lower ->
  capitalize_on_ascii capitalize ->
  (forall c n, (c, n) ∈ LANGUAGES -> lowercase_ascii n) ->
  code ∈ dict_keys (language_code_to_name LANGUAGES) ->
  get_language_code LANGUAGES lower
    (get_language_name LANGUAGES capitalize code) = code.
Proof.
  intros Hl Hc Hnames [name Hname]%dict_get_is_Some.
  unfold get_language_name, get_language_code. rewrite Hname. simpl.
  assert (Hget : dict_get (language_mapping LANGUAGES) name = Some code).
  { apply dict_elem_of_get; [apply dict_of_NoDup|].
    apply dict_of_get, list_elem_of_fmap in Hname as ([n c] & Heq & Hin).
    simpl in Heq. by injection Heq as -> ->. }
  assert (Hlow : lowercase_ascii name).
  { pose proof Hget as H.
    apply dict_of_get, list_elem_of_fmap in H as ([c n] & Heq & HL).
    simpl in Heq. injection Heq as -> ->. by apply (Hnames c n). }
  rewrite (lower_capitalize_lowercase lower capitalize name) by done.
  by rewrite Hget.
Qed.

(** *** Statistics *)

(** C9: for a history that is not empty, the most used language shown
    by the statistics is a target language name whose number of entries is
    largest, and among those with that number the one that occurs first in
    the history: every language that occurs before its first entry has
    strictly fewer entries.  In particular, with three Spanish entries and
    one French entry it is "Spanish". *)
Theorem most_used_language_first_maximum (h : list HistoryEntry) :
  h <> [] ->
  exists m,
    most_used_language h = Ok m
    /\ (forall l, (target_count l h <= target_count m h)%nat)
    /\ (exists before after,
          map to_lang_name h = before ++ m :: after
          /\ (m ∉ before)
          /\ forall l, l ∈ before ->
               (target_count l h < target_count m h)%nat)
    /\ (target_count (lit "Spanish") h = 3%nat ->
        target_count (lit "French") h = 1%nat ->
        (forall e, e ∈ h ->
           to_lang_name e = lit "Spanish" \/ to_lang_name e = lit "French") ->
        m = lit "Spanish").
Proof.
  intros Hne. destruct h as [|e0 h0]; [done|].
  set (h := e0 :: h0) in *. unfold most_used_language. fold h.
  change (match h with [] => Ok (lit "None") | _ :: _ =>
            py_max (dict_keys (count_targets h))
              (fun k => default 0%Z (dict_get (count_targets h) k)) end)
    with (py_max (dict_keys (count_targets h))
            (fun k => default 0%Z (dict_get (count_targets h) k))).
  set (f := fun k => default 0%Z (dict_get (count_targets h) k)).
  assert (Hf : forall l, f l = Z.of_nat (target_count l h)).
  { intros l. apply count_targets_value. }
  destruct (dict_keys (count_targets h)) as [|k ks] eqn:Hk.
  { assert (Hin : to_lang_name e0 ∈ dict_keys (count_targets h)).
    { apply count_targets_keys. apply list_elem_of_here. }
    rewrite Hk in Hin. by apply not_elem_of_nil in Hin. }
  simpl. destruct (max_from_spec f k ks) as (k1 & k2 & Heq & H1 & H2).
  set (m := max_from f k ks) in *. exists m.
  assert (Hmax : forall l, (target_count l h <= target_count m h)%nat).
  { intros l. destruct (decide (target_count l h = 0%nat)) as [->|Hpos];
      [lia|].
    assert (Hl : l ∈ k1 ++ m :: k2).
    { rewrite <- Heq, <- Hk. apply count_targets_keys, target_count_pos.
      lia. }
    apply elem_of_app in Hl as [Hl|[->|Hl]%elem_of_cons].
    - specialize (H1 l Hl). rewrite !Hf in H1. lia.
    - lia.
    - specialize (H2 l Hl). rewrite !Hf in H2. lia. }
  split; [done|]. split; [done|]. split.
  - rewrite Heq in Hk.
    destruct (count_targets_key_order h k1 m k2 Hk)
      as (before & after & Hts & Hm & Hb).
    exists before, after. split; [done|]. split; [done|].
    intros l Hl. specialize (H1 l (Hb l Hl)). rewrite !Hf in H1. lia.
  - intros Hs Hfr Hall.
    assert (Hm : m ∈ map to_lang_name h).
    { apply count_targets_keys. rewrite Hk, Heq.
      apply elem_of_app. right. apply list_elem_of_here. }
    apply list_elem_of_fmap in Hm as (e & -> & He).
    destruct (Hall e He) as [Hsp|Hfrench]; [done|].
    specialize (Hmax (lit "Spanish")). rewrite Hfrench in Hmax. lia.
Qed.

(** *** Export *)

(** C8: for a history that is not empty, [export_history] returns bytes
    whose number of CSV rows is the length of the history plus one, the
    header row and one row for each entry (and that is also the number of
    its lines when no text of the history holds a line feed); for an empty
    history it returns nothing; in both cases the session is left as it
    was.  The texts of the history are Unicode text, free of lone
    surrogates. *)
Theorem export_history_rows (s : SessionState) :
  Forall (fun e => Forall encodable (entry_texts e))
    (conversation_history (app_state s)) ->
  let h := conversation_history (app_state s) in
  (h = [] -> export_history s = (Ok None, s))
  /\ (h <> [] ->
      exists content,
        export_history s = (Ok (Some content), s)
        /\ csv_rows content = S (length h)
        /\ (Forall
              (fun e => Forall (fun f => text_lines f = 0%nat) (entry_texts e))
              h ->
            text_lines content = S (length h))).
Proof.
  intros Henc h. subst h. unfold export_history, bind, get_app, call.
  split.
  - by intros ->.
  - intros Hne.
    destruct (encode_utf8_total _ (to_csv_encodable _ Henc)) as [bs Hbs].
    exists bs.
    destruct (conversation_history (app_state s)) as [|e h] eqn:Hh; [done|].
    rewrite Hbs. split; [done|]. split.
    + unfold csv_rows. rewrite (encode_utf8_scan _ _ Hbs). apply to_csv_rows.
    + intros Hlines. rewrite (encode_utf8_lines _ _ Hbs).
      by apply to_csv_lines.
Qed.

End Properties.

(** ** Closed instances *)

(** C2, as stated, fails: after six translations the history has six
    entries, within the limit of 10; setting the limit to 5, which the
    settings widget allows, leaves six entries in a history limited to 5. *)
Lemma lowering_max_history_breaks_bound :
  let handle := handle sample_LANGUAGES ascii_str_lower ascii_str_capitalize in
  let s :=
    run_actions sample_LANGUAGES ascii_str_lower ascii_str_capitalize
      six_translations ready_session in
  widget_allows (SetMaxHistory 5)
  /\ history_bounded s
  /\ length (conversation_history (app_state s)) = 6
  /\ max_history (settings (app_state (exec (handle (SetMaxHistory 5)) s))) = 5%Z
  /\ ~ history_bounded (exec (handle (SetMaxHistory 5)) s).
Proof.
  repeat split.
  - simpl. lia.
  - simpl. lia.
  - vm_compute. discriminate.
  - vm_compute. intros H. by apply H.
Qed.

Lemma history_bound_kept_witness :
  let handle := handle sample_LANGUAGES ascii_str_lower ascii_str_capitalize in
  let entry := text_entry sample_LANGUAGES ascii_str_capitalize
                 session_with_limit_2 in
  let r (txt : str) := mkTranslated (lit "es" ++ lit ":" ++ txt) in
  let s :=
    run_actions sample_LANGUAGES ascii_str_lower ascii_str_capitalize
      [TypeText (lit "one"); TranslateText echo_translator (lit "12:01");
       TypeText (lit "two"); TranslateText echo_translator (lit "12:02");
       TypeText (lit "three")] session_with_limit_2 in
  let act := TranslateText echo_translator (lit "12:03") in
  let s' := exec (handle act) s in
  (history_bounded s
   /\ conversation_history (app_state s)
      = [entry (lit "12:01") (lit "one") (r (lit "one"));
         entry (lit "12:02") (lit "two") (r (lit "two"))])
  /\ history_bounded s'
  /\ conversation_history (app_state s')
     = [entry (lit "12:02") (lit "two") (r (lit "two"));
        entry (lit "12:03") (lit "three") (r (lit "three"))].
Proof.
  intros handle entry r s act s'.
  assert (Hb : history_bounded s) by (vm_compute; discriminate).
  split; [split; [exact Hb|reflexivity]|]. split; [|reflexivity].
  destruct (history_bound_kept_unless_limit_lowered sample_LANGUAGES
              ascii_str_lower ascii_str_capitalize act s)
    as (Hkeep & _); [vm_compute; discriminate|].
  apply Hkeep; [vm_compute; discriminate|exact Hb].
Defined.

Lemma speech_failure_witness :
  let s := ready_session in
  let e := mkExn UnknownValueError [] in
  let s' :=
    exec (translate_speech sample_LANGUAGES ascii_str_capitalize
            not_understood echo_translator (lit "12:00")) s in
  speech_failure not_understood echo_translator s e
  /\ status_class (app_state s') = status_error
  /\ status (app_state s') <> []
  /\ conversation_history (app_state s') = conversation_history (app_state s)
  /\ translated_text (app_state s') = translated_text (app_state s).
Proof.
  split.
  - apply recognition_fails; reflexivity.
  - apply (speech_failure_sets_error_status sample_LANGUAGES
             ascii_str_capitalize not_understood echo_translator (lit "12:00")
             ready_session (mkExn UnknownValueError [])).
    apply recognition_fails; reflexivity.
Defined.

Lemma three_translations_witness :
  let s := session_with_limit_2 in
  let r (txt : str) := mkTranslated (lit "es" ++ lit ":" ++ txt) in
  let entry := text_entry sample_LANGUAGES ascii_str_capitalize s in
  let s' :=
    run_actions sample_LANGUAGES ascii_str_lower ascii_str_capitalize
      [TypeText (lit "one"); TranslateText echo_translator (lit "12:01");
       TypeText (lit "two"); TranslateText echo_translator (lit "12:02");
       TypeText (lit "three"); TranslateText echo_translator (lit "12:03")] s in
  conversation_history (app_state s')
    = [entry (lit "12:02") (lit "two") (r (lit "two"));
       entry (lit "12:03") (lit "three") (r (lit "three"))]
  /\ total_translations (app_state s') = 3%Z.
Proof.
  apply (three_translations_keep_last_two sample_LANGUAGES ascii_str_lower
           ascii_str_capitalize session_with_limit_2
           (lit "one") (lit "two") (lit "three")
           (lit "12:01") (lit "12:02") (lit "12:03")
           echo_translator echo_translator echo_translator
           (mkTranslated (lit "es" ++ lit ":" ++ lit "one")));
    reflexivity.
Defined.

Lemma text_translation_witness :
  let s := with_text_input (lit "hello") ready_session in
  let r := mkTranslated (lit "es" ++ lit ":" ++ lit "hello") in
  let s' :=
    exec (text_input_translation sample_LANGUAGES ascii_str_capitalize
            echo_translator (lit "12:00")) s in
  let e :=
    text_entry sample_LANGUAGES ascii_str_capitalize s (lit "12:00")
      (lit "hello") r in
  translate_text_returns echo_translator (lit "hello") (lit "en") (lit "es") s r
  /\ total_translations (app_state s') = 1%Z
  /\ conversation_history (app_state s') = [e]
  /\ last (conversation_history (app_state s')) = Some e.
Proof.
  intros s r s' e.
  destruct (text_translation_counts_and_appends sample_LANGUAGES
              ascii_str_capitalize echo_translator (lit "12:00") s r)
    as (Htotal & _ & _ & _ & _ & Hlast & Happend);
    [discriminate | reflexivity | vm_compute; discriminate |].
  split; [reflexivity|]. split; [exact Htotal|]. split; [|exact Hlast].
  apply Happend. vm_compute. reflexivity.
Defined.

Lemma export_history_witness :
  let s :=
    with_app_state
      (with_conversation_history [spanish_entry; french_entry]
         (initial_app_state 0)) ready_session in
  exists content,
    export_history s = (Ok (Some content), s) /\ csv_rows content = 3%nat.
Proof.
  intros s.
  assert (Henc : Forall (fun e => Forall encodable (entry_texts e))
                   (conversation_history (app_state s))).
  { repeat first [ apply lit_encodable | apply Forall_nil_2
                 | apply Forall_cons_2 | progress cbn ]. }
  destruct (export_history_rows s Henc) as [_ Hrows].
  destruct Hrows as (content & Hrun & Hcount & _); [discriminate|].
  exists content. split; [exact Hrun|exact Hcount].
Defined.

Lemma most_used_language_witness :
  let h := [french_entry; spanish_entry; spanish_entry; spanish_entry] in
  exists m,
    most_used_language h = Ok m
    /\ (forall l, (target_count l h <= target_count m h)%nat)
    /\ (exists before after,
          map to_lang_name h = before ++ m :: after
          /\ (m ∉ before)
          /\ forall l, l ∈ before ->
               (target_count l h < target_count m h)%nat)
    /\ (target_count (lit "Spanish") h = 3%nat ->
        target_count (lit "French") h = 1%nat ->
        (forall e, e ∈ h ->
           to_lang_name e = lit "Spanish" \/ to_lang_name e = lit "French") ->
        m = lit "Spanish").
Proof.
  apply (most_used_language_first_maximum
           [french_entry; spanish_entry; spanish_entry; spanish_entry]).
  discriminate.
Defined.

(** A code of [LANGUAGES] whose name a later code shares is not a code of
    the directory, and its display name does not convert back: with "iw" and
    "he" both named "hebrew", "iw" comes back as "Iw". *)
Example shadowed_code_not_restored :
  lit "iw" ∈ sample_LANGUAGES.*1
  /\ (lit "iw" ∉ dict_keys (language_code_to_name sample_LANGUAGES))
  /\ get_language_code sample_LANGUAGES ascii_str_lower
       (get_language_name sample_LANGUAGES ascii_str_capitalize (lit "iw"))
     = lit "Iw".
Proof.
  split; [|split; [|reflexivity]].
  - apply (bool_decide_unpack _). by vm_compute.
  - apply (bool_decide_unpack _). by vm_compute.
Qed.

Lemma language_code_round_trip_witness :
  lit "he" ∈ dict_keys (language_code_to_name sample_LANGUAGES)
  /\ get_language_name sample_LANGUAGES ascii_str_capitalize (lit "he")
     = lit "Hebrew"
  /\ get_language_code sample_LANGUAGES ascii_str_lower
       (get_language_name sample_LANGUAGES ascii_str_capitalize (lit "he"))
     = lit "he".
Proof.
  assert (Hin : lit "he" ∈ dict_keys (language_code_to_name sample_LANGUAGES)).
  { apply dict_get_is_Some. eexists. reflexivity. }
  split; [exact Hin|]. split; [reflexivity|].
  apply (language_code_round_trip sample_LANGUAGES ascii_str_lower
           ascii_str_capitalize (lit "he")).
  - intros s _. reflexivity.
  - intros s _. reflexivity.
  - apply lowercase_names_correct. reflexivity.
  - exact Hin.
Defined.

(** * Further properties *)

(** ** Stripping *)

Lemma lstrip_all_space (s : str) : lstrip s = [] <-> all_space s.
Proof.
  unfold all_space. induction s as [|c s IH]; simpl.
  - split; [intros _; apply Forall_nil_2|done].
  - destruct (py_isspace c) eqn:Hc.
    + rewrite IH. split; [by apply Forall_cons_2|].
      by intros [_ ?]%Forall_cons.
    + split; [done|]. intros [? _]%Forall_cons. congruence.
Qed.

Lemma lstrip_split (s : str) :
  exists spaces, s = spaces ++ lstrip s /\ all_space spaces.
Proof.
  induction s as [|c s (spaces & Heq & Hsp)]; simpl.
  - exists []. split; [done|apply Forall_nil_2].
  - destruct (py_isspace c) eqn:Hc.
    + exists (c :: spaces). split; [by rewrite Heq at 1|].
      by apply Forall_cons_2.
    + exists []. split; [done|apply Forall_nil_2].
Qed.

(** [s.strip()] is empty exactly for whitespace-only text. *)
Lemma strip_all_space (s : str) : strip s = [] <-> all_space s.
Proof.
  unfold strip, rstrip. split.
  - intros H. apply (f_equal (@rev N)) in H. rewrite rev_involutive in H.
    simpl in H. apply lstrip_all_space in H.
    destruct (lstrip_split s) as (spaces & Heq & Hsp).
    rewrite Heq. apply Forall_app. split; [done|].
    unfold all_space in *. rewrite <- (rev_involutive (lstrip s)).
    by apply Forall_rev.
  - intros H. apply lstrip_all_space in H. by rewrite H.
Qed.

Lemma strip_truthy_iff (s : str) :
  str_truthy (strip s) = false <-> all_space s.
Proof.
  rewrite <- strip_all_space. by destruct (strip s).
Qed.

Lemma all_ascii_correct (t : str) :
  forallb (fun c => (c <? 128)%N) t = true -> Forall is_ascii t.
Proof.
  induction t as [|c t IH]; simpl; [intros _; apply Forall_nil_2|].
  intros [Hc Hrest]%andb_true_iff.
  apply Forall_cons_2; [by apply N.ltb_lt|by apply IH].
Qed.

Section FurtherProperties.
Variable LANGUAGES : list (str * str).
Variable lower : str -> str.
Variable capitalize : str -> str.

Local Abbreviation handle := (handle LANGUAGES lower capitalize).
Local Abbreviation run_actions := (run_actions LANGUAGES lower capitalize).
Local Abbreviation text_input_translation :=
  (text_input_translation LANGUAGES capitalize).
Local Abbreviation translate_speech := (translate_speech LANGUAGES capitalize).
Local Abbreviation text_entry := (text_entry LANGUAGES capitalize).
Local Abbreviation speech_entry := (speech_entry LANGUAGES capitalize).

(** ** [translate_text] *)

(** X1: [translate_text] on whitespace-only text returns [None] and leaves
    the session as it was, whatever the translator would do; on any other
    text the translator decides: its result is returned and
    [total_translations] grows by 1, or its exception is turned into [None]
    and an error status that carries the exception's text, the counter
    staying as it was. *)
Theorem translate_text_outcomes
    (translator : Translator) (txt from_lang to_lang : str)
    (s : SessionState) :
  (all_space txt ->
   translate_text translator txt from_lang to_lang s = (Ok None, s))
  /\ (~ all_space txt ->
      match translator txt from_lang to_lang with
      | Ok r =>
          translate_text translator txt from_lang to_lang s
          = (Ok (Some r),
             with_app_state
               (with_total_translations
                  (total_translations (app_state s) + 1)%Z (app_state s)) s)
      | Raised e =>
          translate_text translator txt from_lang to_lang s
          = (Ok None,
             with_app_state
               (with_status
                  ([0x274C]%N ++ lit " Translation failed: " ++ exn_str e)
                  (lit "status-error") (app_state s)) s)
      end).
Proof.
  split.
  - intros Hb%strip_truthy_iff. by apply translate_text_blank.
  - intros Hb. assert (Ht : str_truthy (strip txt) = true).
    { destruct (str_truthy (strip txt)) eqn:H; [done|].
      by apply strip_truthy_iff in H. }
    destruct (translator txt from_lang to_lang) as [r|e] eqn:Hr.
    + by apply translate_text_ok.
    + by apply translate_text_raised.
Qed.

(** ** The two translation actions *)

Local Ltac unchanged := repeat split; try done; left; by split.

Lemma translate_speech_frame sp translator now s :
  (translate_speech sp translator now s).1 = Ok tt
  /\ is_translating (app_state (exec (translate_speech sp translator now) s))
     = false
  /\ favorites (app_state (exec (translate_speech sp translator now) s))
     = favorites (app_state s)
  /\ (total_translations
        (app_state (exec (translate_speech sp translator now) s))
      = total_translations (app_state s)
      /\ conversation_history
           (app_state (exec (translate_speech sp translator now) s))
         = conversation_history (app_state s)
      \/ total_translations
           (app_state (exec (translate_speech sp translator now) s))
         = (total_translations (app_state s) + 1)%Z
         /\ exists e,
              conversation_history
                (app_state (exec (translate_speech sp translator now) s))
              = limited (max_history (settings (app_state s)))
                  (conversation_history (app_state s) ++ [e])).
Proof.
  unfold exec, translate_speech, finally, try_except, bind, call,
    update_status, modify_app, get_app, get_session. simpl.
  destruct (microphone sp) as [[]|]; simpl; [|unchanged].
  destruct (adjust_for_ambient_noise sp) as [[]|]; simpl; [|unchanged].
  destruct (listen sp _) as [[]|]; simpl; [|unchanged].
  destruct (recognize_google sp _) as [spoken|e]; simpl.
  - destruct (str_truthy (strip spoken)) eqn:Hb.
    + destruct (translator spoken (current_from_lang s) (current_to_lang s))
        as [r|e] eqn:Hr.
      * rewrite (translate_text_ok _ _ _ _ _ r) by done. simpl.
        unfold append_history, modify_app, bind. simpl.
        rewrite limit_history_run. simpl. repeat split; try done.
        right. split; [done|]. by eexists.
      * rewrite (translate_text_raised _ _ _ _ _ e) by done. simpl. unchanged.
    + rewrite translate_text_blank by done. simpl. unchanged.
  - destruct (exn_cls e); simpl; unchanged.
Qed.

Lemma text_input_translation_frame translator now s :
  ((text_input_translation translator now s).1 = Ok tt
   \/ (text_input_translation translator now s).1
      = Raised
          (mkExn StreamlitAPIException
             (msg_widget_instantiated (lit "text_input"))))
  /\ text_input (exec (text_input_translation translator now) s)
     = text_input s
  /\ is_translating (app_state (exec (text_input_translation translator now) s))
     = is_translating (app_state s)
  /\ favorites (app_state (exec (text_input_translation translator now) s))
     = favorites (app_state s)
  /\ (total_translations
        (app_state (exec (text_input_translation translator now) s))
      = total_translations (app_state s)
      /\ conversation_history
           (app_state (exec (text_input_translation translator now) s))
         = conversation_history (app_state s)
      \/ total_translations
           (app_state (exec (text_input_translation translator now) s))
         = (total_translations (app_state s) + 1)%Z
         /\ exists e,
              conversation_history
                (app_state (exec (text_input_translation translator now) s))
              = limited (max_history (settings (app_state s)))
                  (conversation_history (app_state s) ++ [e])).
Proof.
  unfold exec.
  destruct (text_input s) as [|c txt] eqn:Ht.
  { rewrite text_input_translation_empty by done. simpl.
    split; [by left|]. split; [done|]. unchanged. }
  destruct (str_truthy (strip (text_input s))) eqn:Hb.
  - destruct (translator (text_input s) (current_from_lang s)
                (current_to_lang s)) as [r|e] eqn:Hr.
    + rewrite (text_input_translation_ok _ _ _ _ _ r) by done. simpl.
      split; [by right|]. repeat split; try done.
      right. split; [done|]. by eexists.
    + rewrite (text_input_translation_raised _ _ _ _ _ e) by done. simpl.
      split; [by left|]. split; [done|]. unchanged.
  - rewrite text_input_translation_blank by first [done | by rewrite Ht].
    simpl. split; [by left|]. split; [done|]. unchanged.
Qed.

Lemma not_all_space_truthy (txt : str) :
  ~ all_space txt -> str_truthy (strip txt) = true.
Proof.
  intros Hb. destruct (str_truthy (strip txt)) eqn:H; [done|].
  by apply strip_truthy_iff in H.
Qed.

(** X2: the speech action never raises to its caller, whatever the
    microphone, the recogniser and the translator do, and after it the flag
    [is_translating] is off again.  The text action raises exactly when the
    translation has succeeded (text that is not blank, a translator that
    answers): the assignment to the text box that follows is refused by
    Streamlit with [StreamlitAPIException]; in every other case it
    returns. *)
Theorem translation_actions_raise_only_at_text_box
    (sp : Speech) (translator : Translator) (now : str) (s : SessionState) :
  (translate_speech sp translator now s).1 = Ok tt
  /\ (handle (StartListening sp translator now) s).1 = Ok tt
  /\ is_translating
       (app_state (exec (handle (StartListening sp translator now)) s))
     = false
  /\ ((text_input_translation translator now s).1 = Ok tt
      \/ (text_input_translation translator now s).1
         = Raised
             (mkExn StreamlitAPIException
                (msg_widget_instantiated (lit "text_input"))))
  /\ ((text_input_translation translator now s).1 <> Ok tt <->
      ~ all_space (text_input s)
      /\ exists r,
           translator (text_input s) (current_from_lang s)
             (current_to_lang s) = Ok r)
  /\ (handle (TranslateText translator now) s).1
     = (text_input_translation translator now s).1.
Proof.
  destruct (translate_speech_frame sp translator now s) as (H1 & _).
  destruct (text_input_translation_frame translator now s) as (H2 & _).
  split; [done|].
  destruct (translate_speech_frame sp translator now
              (with_app_state (with_is_translating true (app_state s)) s))
    as (H3 & H4 & _).
  split; [unfold exec in *; simpl; unfold bind, modify_app; simpl; done|].
  split; [unfold exec in *; simpl; unfold bind, modify_app; simpl; done|].
  split; [done|]. split; [|done].
  destruct (text_input s) as [|c txt] eqn:Ht.
  { rewrite text_input_translation_empty by done. simpl. split; [done|].
    intros [Hb _]. destruct Hb. apply Forall_nil_2. }
  destruct (str_truthy (strip (text_input s))) eqn:Hb.
  - assert (Hns : ~ all_space (text_input s)).
    { intros Hs%strip_truthy_iff. congruence. }
    rewrite <- Ht.
    destruct (translator (text_input s) (current_from_lang s)
                (current_to_lang s)) as [r|e] eqn:Hr.
    + rewrite (text_input_translation_ok _ _ _ _ _ r) by done. simpl.
      split; [|done]. intros _. split; [done|]. by exists r.
    + rewrite (text_input_translation_raised _ _ _ _ _ e) by done. simpl.
      split; [done|]. by intros [_ [r Hr']].
  - rewrite text_input_translation_blank by first [done | by rewrite Ht].
    simpl. split; [done|]. intros [Hns _]. destruct Hns.
    apply strip_truthy_iff. by rewrite <- Ht.
Qed.

Lemma translate_speech_ok sp translator now s spoken r :
  microphone sp = Ok tt ->
  adjust_for_ambient_noise sp = Ok tt ->
  listen sp (speech_timeout (settings (app_state s))) = Ok tt ->
  recognize_google sp (current_from_lang s) = Ok spoken ->
  str_truthy (strip spoken) = true ->
  translator spoken (current_from_lang s) (current_to_lang s) = Ok r ->
  translate_speech sp translator now s =
    (Ok tt,
     mkSessionState
       (mkAppState false msg_complete status_ready
          (Some (mkTranslatedText spoken (text r)
                   (get_language_name LANGUAGES capitalize (current_from_lang s))
                   (get_language_name LANGUAGES capitalize (current_to_lang s))))
          (limited (max_history (settings (app_state s)))
             (conversation_history (app_state s)
                ++ [speech_entry s now spoken r]))
          (start_time (app_state s))
          (total_translations (app_state s) + 1)%Z
          (favorites (app_state s)) (settings (app_state s)))
       (text_input s) (current_from_lang s) (current_to_lang s)).
Proof.
  intros H1 H2 H3 H4 Hb Hr.
  unfold translate_speech, finally, try_except, bind, call, update_status,
    modify_app, get_app, get_session. simpl.
  rewrite H1, H2, H3, H4. simpl.
  rewrite (translate_text_ok _ _ _ _ _ r) by done. simpl.
  unfold append_history, modify_app, bind. simpl.
  rewrite limit_history_run. reflexivity.
Qed.

(** X3: a speech translation in which the microphone, the recogniser and
    the translator all answer, on spoken text that is not blank, adds 1 to
    [total_translations], shows the spoken text with its translation and the
    display names of the two languages, appends one entry without an input
    type at the end of the history (the newest entry is the last one, the
    limit being at least 0), ends with the status "Translation complete" of
    class status-ready, and leaves the text box and the favorites alone. *)
Theorem speech_translation_success
    (sp : Speech) (translator : Translator) (now : str) (s : SessionState)
    (spoken : str) (r : Translated) :
  microphone sp = Ok tt ->
  adjust_for_ambient_noise sp = Ok tt ->
  listen sp (speech_timeout (settings (app_state s))) = Ok tt ->
  recognize_google sp (current_from_lang s) = Ok spoken ->
  ~ all_space spoken ->
  translator spoken (current_from_lang s) (current_to_lang s) = Ok r ->
  (0 <= max_history (settings (app_state s)))%Z ->
  let s' := exec (translate_speech sp translator now) s in
  let e := speech_entry s now spoken r in
  total_translations (app_state s')
    = (total_translations (app_state s) + 1)%Z
  /\ translated_text (app_state s')
     = Some (mkTranslatedText spoken (text r)
               (get_language_name LANGUAGES capitalize (current_from_lang s))
               (get_language_name LANGUAGES capitalize (current_to_lang s)))
  /\ input_type e = None
  /\ original e = spoken
  /\ translation e = text r
  /\ (exists evicted,
        conversation_history (app_state s) ++ [e]
        = evicted ++ conversation_history (app_state s'))
  /\ last (conversation_history (app_state s')) = Some e
  /\ status (app_state s') = [0x2705]%N ++ lit " Translation complete"
  /\ status_class (app_state s') = lit "status-ready"
  /\ text_input s' = text_input s
  /\ favorites (app_state s') = favorites (app_state s).
Proof.
  intros H1 H2 H3 H4 Hb%not_all_space_truthy Hr Hmax s' e. subst s'.
  unfold exec. rewrite (translate_speech_ok _ _ _ _ spoken r) by done.
  simpl. repeat split.
  - apply limited_suffix.
  - by apply limited_snoc_last.
Qed.

(** X4: pressing Translate on text that is not blank never clears the
    text box.  When the translator answers, the translation is counted and
    shown, but the assignment to the text box raises
    [StreamlitAPIException]: the text stays in the box and the status stays
    at "Translating..." of class status-processing.  When the translator
    raises, the action returns, the history, the shown translation and the
    counter are as before, and the status is the error status with the
    exception's text. *)
Theorem text_box_kept_after_translation
    (translator : Translator) (now : str) (s : SessionState) :
  ~ all_space (text_input s) ->
  let run := text_input_translation translator now s in
  let s' := exec (text_input_translation translator now) s in
  text_input s' = text_input s
  /\ match translator (text_input s) (current_from_lang s) (current_to_lang s)
     with
     | Ok r =>
         run.1
         = Raised
             (mkExn StreamlitAPIException
                (msg_widget_instantiated (lit "text_input")))
         /\ status (app_state s') = [0x2728]%N ++ lit " Translating..."
         /\ status_class (app_state s') = lit "status-processing"
         /\ translated_text (app_state s')
            = Some (mkTranslatedText (text_input s) (text r)
                      (get_language_name LANGUAGES capitalize
                         (current_from_lang s))
                      (get_language_name LANGUAGES capitalize
                         (current_to_lang s)))
         /\ total_translations (app_state s')
            = (total_translations (app_state s) + 1)%Z
     | Raised e =>
         run.1 = Ok tt
         /\ conversation_history (app_state s')
            = conversation_history (app_state s)
         /\ translated_text (app_state s') = translated_text (app_state s)
         /\ total_translations (app_state s')
            = total_translations (app_state s)
         /\ status (app_state s')
            = [0x274C]%N ++ lit " Translation failed: " ++ exn_str e
         /\ status_class (app_state s') = lit "status-error"
     end.
Proof.
  intros Hb%not_all_space_truthy run s'. subst run s'. unfold exec.
  destruct (translator (text_input s) (current_from_lang s)
              (current_to_lang s)) as [r|e] eqn:Hr.
  - by rewrite (text_input_translation_ok _ _ _ _ _ r).
  - by rewrite (text_input_translation_raised _ _ _ _ _ e).
Qed.

(** ** What every handler does to the counter, the history and the
    favorites *)

Lemma handle_effect act s :
  let s' := exec (handle act) s in
  (total_translations (app_state s') = total_translations (app_state s)
   /\ (conversation_history (app_state s')
         = conversation_history (app_state s)
       \/ conversation_history (app_state s') = [])
   \/ total_translations (app_state s')
      = (total_translations (app_state s) + 1)%Z
      /\ exists e,
           conversation_history (app_state s')
           = limited (max_history (settings (app_state s)))
               (conversation_history (app_state s) ++ [e]))
  /\ (favorites (app_state s') = favorites (app_state s)
      \/ exists e, favorites (app_state s') = favorites (app_state s) ++ [e]).
Proof.
  destruct act; simpl.
  - destruct (translate_speech_frame sp translator now
                (with_app_state (with_is_translating true (app_state s)) s))
      as (_ & _ & Hf & [[Ht Hh]|[Ht Hh]]);
      unfold exec, bind, modify_app in *; simpl in *; auto.
  - auto.
  - auto.
  - destruct (text_input_translation_frame translator now s)
      as (_ & _ & _ & Hf & [[Ht Hh]|[Ht Hh]]); auto.
  - unfold exec, bind, get_app. case_bool_decide; simpl; [|auto].
    unfold save_to_favorites, bind, get_app, call, py_last.
    case_bool_decide; simpl; [|auto].
    destruct (last (conversation_history (app_state s))); simpl;
      (split; [auto|eauto]).
  - unfold exec, bind, get_app. case_bool_decide; simpl; auto.
  - auto.
  - unfold exec, bind, get_app. case_bool_decide; simpl;
      (split; [auto|eauto]).
  - auto.
  - auto.
  - auto.
  - auto.
  - auto.
  - auto.
Qed.

Lemma run_actions_snoc acts act s :
  run_actions (acts ++ [act]) s = exec (handle act) (run_actions acts s).
Proof. unfold run_actions. by rewrite foldl_snoc. Qed.

(** X5: no sequence of actions removes or reorders a favorite: the
    favorites before are a prefix of the favorites after, and each action
    adds at most one. *)
Theorem favorites_only_grow (acts : list action) (s : SessionState) :
  favorites (app_state s)
    `prefix_of` favorites (app_state (run_actions acts s))
  /\ (length (favorites (app_state (run_actions acts s)))
      <= length (favorites (app_state s)) + length acts)%nat.
Proof.
  induction acts as [|act acts [IH1 IH2]] using rev_ind.
  - split; [done|]. simpl. lia.
  - rewrite run_actions_snoc, length_app. simpl.
    destruct (handle_effect act (run_actions acts s)) as [_ [Hf|[e Hf]]];
      rewrite Hf.
    + split; [done|lia].
    + split; [by apply prefix_app_r|]. rewrite length_app. simpl. lia.
Qed.

(** X6: the counter never goes down and never falls behind the history:
    along any sequence of actions [total_translations] does not decrease,
    grows by at most 1 with each action, and
    [length(History) <= total_translations], once true, stays true (it is
    true of a fresh session). *)
Theorem counter_covers_history (acts : list action) (s : SessionState) :
  history_within_total s ->
  let s' := run_actions acts s in
  history_within_total s'
  /\ (total_translations (app_state s)
      <= total_translations (app_state s')
      <= total_translations (app_state s) + Z.of_nat (length acts))%Z.
Proof.
  intros Hinv. simpl.
  induction acts as [|act acts (IH1 & IH2)] using rev_ind.
  - split; [done|]. simpl. lia.
  - rewrite run_actions_snoc, length_app. simpl.
    unfold history_within_total in *.
    destruct (handle_effect act (run_actions acts s))
      as [[[Ht [Hh|Hh]]|[Ht [e Hh]]] _]; rewrite Ht, Hh.
    + split; lia.
    + split; simpl; lia.
    + split; [|lia].
      pose proof (suffix_length _ _
                    (limited_suffix
                       (max_history (settings (app_state (run_actions acts s))))
                       (conversation_history (app_state (run_actions acts s))
                          ++ [e]))) as Hlen.
      rewrite length_app in Hlen. simpl in Hlen. lia.
Qed.

(** ** Favorites *)

(** X7: "Add to Favorites" on a history entry never stores an entry
    twice: the entry is among the favorites afterwards, favorites without
    repetitions stay so, and pressing the button again changes nothing. *)
Theorem add_to_favorites_no_repetition
    (entry : HistoryEntry) (s : SessionState) :
  let s' := exec (handle (AddToFavorites entry)) s in
  entry ∈ favorites (app_state s')
  /\ (NoDup (favorites (app_state s)) -> NoDup (favorites (app_state s')))
  /\ exec (handle (AddToFavorites entry)) s' = s'
  /\ (handle (AddToFavorites entry) s).1 = Ok tt.
Proof.
  simpl. unfold exec, bind, get_app, modify_app. simpl.
  destruct (decide (entry ∈ favorites (app_state s))) as [Hin|Hnin].
  - rewrite !bool_decide_eq_true_2 by done. simpl.
    rewrite ?bool_decide_eq_true_2 by done. done.
  - rewrite !bool_decide_eq_false_2 by done. simpl.
    rewrite ?bool_decide_eq_true_2
      by (apply elem_of_app; right; apply list_elem_of_here).
    simpl. repeat split.
    + apply elem_of_app. right. apply list_elem_of_here.
    + intros Hnd. apply NoDup_app. split; [done|]. split.
      * intros x Hx ->%list_elem_of_singleton. done.
      * apply NoDup_singleton.
Qed.

(** X8: "Save to Favorites" on the shown translation does not look for
    repetitions: with a translation shown and a history that is not empty,
    each press appends the newest history entry once more. *)
Theorem save_to_favorites_repeats
    (s : SessionState) (shown : TranslatedText) (e : HistoryEntry) :
  translated_text (app_state s) = Some shown ->
  last (conversation_history (app_state s)) = Some e ->
  favorites
    (app_state (run_actions [SaveToFavorites; SaveToFavorites] s))
  = favorites (app_state s) ++ [e; e].
Proof.
  intros Hshown Hlast. rewrite !run_actions_cons, run_actions_nil.
  assert (Hsave : forall s0,
             translated_text (app_state s0) = Some shown ->
             last (conversation_history (app_state s0)) = Some e ->
             exec (handle SaveToFavorites) s0
             = with_app_state
                 (with_favorites (favorites (app_state s0) ++ [e])
                    (app_state s0)) s0).
  { intros s0 H1 H2. unfold exec. simpl. unfold bind at 1. unfold get_app.
    rewrite bool_decide_eq_true_2 by (by rewrite H1).
    by rewrite (save_to_favorites_appends_last _ shown e). }
  rewrite (Hsave s) by done. rewrite Hsave by done. simpl.
  by rewrite <- app_assoc.
Qed.

(** X9: "Save to Favorites" pressed right after a text translation that
    succeeded saves the entry of that translation (the limit being at least
    0). *)
Theorem translate_then_save
    (translator : Translator) (now : str) (s : SessionState)
    (r : Translated) :
  ~ all_space (text_input s) ->
  translator (text_input s) (current_from_lang s) (current_to_lang s) = Ok r ->
  (0 <= max_history (settings (app_state s)))%Z ->
  favorites
    (app_state
       (run_actions [TranslateText translator now; SaveToFavorites] s))
  = favorites (app_state s) ++ [text_entry s now (text_input s) r].
Proof.
  intros Hb%not_all_space_truthy Hr Hmax.
  rewrite !run_actions_cons, run_actions_nil.
  unfold exec at 2. simpl handle at 2.
  rewrite (text_input_translation_ok _ _ _ _ _ r) by done. simpl snd.
  unfold exec. simpl. unfold bind at 1. unfold get_app. simpl.
  erewrite save_to_favorites_appends_last; [done|done|].
  simpl. by apply limited_snoc_last.
Qed.

(** ** A run of translations *)

Lemma limited_keep_last n h :
  (1 <= n)%Z -> limited n h = keep_last (Z.to_nat n) h.
Proof.
  intros Hn. unfold limited, keep_last.
  destruct (Z.gtb_spec (Z.of_nat (length h)) n) as [Hgt|Hle].
  - by rewrite py_slice_from_neg by lia.
  - replace (length h - Z.to_nat n)%nat with 0%nat by lia. by rewrite drop_0.
Qed.

Lemma keep_last_app {A : Type} (n : nat) (a b : list A) :
  keep_last n (keep_last n a ++ b) = keep_last n (a ++ b).
Proof.
  unfold keep_last. rewrite !length_app, length_drop.
  destruct (decide (length a <= n)%nat) as [Hle|Hgt].
  - replace (length a - n)%nat with 0%nat by lia.
    rewrite drop_0. f_equal. lia.
  - replace (length a - (length a - n) + length b - n)%nat
      with (length b) by lia.
    replace (length a + length b - n)%nat
      with ((length a - n) + length b)%nat by lia.
    rewrite <- drop_drop. f_equal.
    rewrite drop_app_le by lia. done.
Qed.

(** X10: after any run of text translations that all succeed, started
    from a history within the limit (the limit being at least 1), the
    history is the last [max_history] entries of the history before followed
    by the entries of the run, in order, and [total_translations] has grown
    by the number of translations. *)
Theorem history_is_last_entries (subs : list submission) (s : SessionState) :
  (1 <= max_history (settings (app_state s)))%Z ->
  history_bounded s ->
  Forall (submission_succeeds s) subs ->
  let s' := run_actions (submit_all subs) s in
  conversation_history (app_state s')
  = keep_last (Z.to_nat (max_history (settings (app_state s))))
      (conversation_history (app_state s)
         ++ map (fun sub : submission => text_entry s sub.1.2 sub.1.1.1 sub.2)
              subs)
  /\ total_translations (app_state s')
     = (total_translations (app_state s) + Z.of_nat (length subs))%Z.
Proof.
  intros Hmax Hb Hall. simpl. revert s Hmax Hb Hall.
  induction subs as [|[[[txt tr] now] r] subs IH]; intros s Hmax Hb Hall.
  - rewrite run_actions_nil, app_nil_r. simpl. split; [|lia].
    unfold keep_last, history_bounded in *.
    replace (_ - _)%nat with 0%nat by lia. by rewrite drop_0.
  - apply Forall_cons in Hall as [[Hsp Hr] Hall]. simpl in Hsp, Hr.
    apply not_all_space_truthy in Hsp.
    change (submit_all ((txt, tr, now, r) :: subs))
      with (TypeText txt :: TranslateText tr now :: submit_all subs).
    rewrite !run_actions_cons.
    rewrite (type_then_translate_ok LANGUAGES lower capitalize tr now s txt r)
      by done.
    match goal with
    | |- context [run_actions _ ?st] => set (s1 := st)
    end.
    destruct (IH s1) as [IHh IHt].
    + done.
    + unfold history_bounded. subst s1. simpl. by apply limited_length.
    + done.
    + rewrite IHh, IHt. subst s1. simpl. split; [|lia].
      rewrite limited_keep_last by done.
      rewrite keep_last_app, <- app_assoc. done.
Qed.

(** ** Settings *)

Lemma handle_settings act s :
  widget_allows act ->
  lower_on_ascii lower ->
  settings_valid (settings (app_state s)) ->
  settings_valid (settings (app_state (exec (handle act) s))).
Proof.
  intros Hw Hl (Hm & Ht & Hth). destruct act; simpl in *; try done.
  - destruct (translate_speech_history LANGUAGES capitalize sp translator now
                (with_app_state (with_is_translating true (app_state s)) s))
      as [Hs _].
    unfold exec, bind, modify_app in *. simpl in *. by rewrite Hs.
  - destruct (text_input_translation_history LANGUAGES capitalize
                translator now s) as [Hs _].
    by rewrite Hs.
  - unfold exec, bind, get_app. case_bool_decide; simpl; [|done].
    unfold save_to_favorites, bind, get_app, call, py_last.
    case_bool_decide; simpl; [|done].
    by destruct (last (conversation_history (app_state s))).
  - unfold exec, bind, get_app. by case_bool_decide.
  - unfold exec, bind, get_app. by case_bool_decide.
  - split; [done|]. split; [done|].
    destruct Hw as [->| ->].
    + rewrite Hl by (by apply all_ascii_correct). by left.
    + rewrite Hl by (by apply all_ascii_correct). by right.
  - split; [simpl; lia|]. split; [simpl; lia|]. by left.
Qed.

(** X11: the settings stay within the ranges of their widgets: from
    settings with the limit in 5..100, the timeout in 1..15 and the theme
    light or dark, any sequence of actions whose inputs the widgets allow
    ends in such settings; the theme box's "Light" and "Dark" are stored in
    lower case. *)
Theorem settings_stay_valid (acts : list action) (s : SessionState) :
  lower_on_ascii lower ->
  Forall widget_allows acts ->
  settings_valid (settings (app_state s)) ->
  settings_valid (settings (app_state (run_actions acts s))).
Proof.
  intros Hl Hacts Hs.
  induction acts as [|act acts IH] using rev_ind; [done|].
  apply Forall_app in Hacts as [Hacts [Hact _]%Forall_cons].
  rewrite run_actions_snoc. apply handle_settings; [done|done|].
  by apply IH.
Qed.
End FurtherProperties.

(** ** The language directory *)

Section DirectoryFacts.
Context {K V : Type} `{EqDecision K}.
Implicit Types (d : dict K V) (k : K) (v : V).

Lemma dict_of_snoc (items : list (K * V)) k v :
  dict_of (items ++ [(k, v)]) = dict_set (dict_of items) k v.
Proof. unfold dict_of. by rewrite foldl_snoc. Qed.

(** Building a dict from items, the last item of a key gives its value. *)
Lemma dict_of_get_last (items : list (K * V)) k v :
  dict_get (dict_of items) k = Some v <->
  exists before after,
    items = before ++ (k, v) :: after /\ (k ∉ after.*1).
Proof.
  induction items as [|[k0 v0] items IH] using rev_ind.
  - split; [done|]. intros (before & after & H & _). by destruct before.
  - rewrite dict_of_snoc, dict_get_set.
    destruct (decide (k0 = k)) as [->|Hne].
    + split.
      * intros [= ->]. exists items, []. split; [done|]. apply not_elem_of_nil.
      * intros (before & after & Heq & Hnin).
        destruct after as [|x after _] using rev_ind.
        -- apply app_inj_tail in Heq as [_ [= ->]]. done.
        -- rewrite app_comm_cons, app_assoc in Heq.
           apply app_inj_tail in Heq as [_ <-].
           rewrite fmap_app in Hnin. destruct Hnin.
           apply elem_of_app. right. apply list_elem_of_here.
    + rewrite IH. split.
      * intros (before & after & -> & Hnin).
        exists before, (after ++ [(k0, v0)]).
        split; [by rewrite <- app_assoc|].
        rewrite fmap_app. intros [?|?%list_elem_of_singleton]%elem_of_app;
          [done|]. simpl in *. congruence.
      * intros (before & after & Heq & Hnin).
        destruct after as [|x after _] using rev_ind.
        -- apply app_inj_tail in Heq as [_ [= -> _]]. done.
        -- rewrite app_comm_cons, app_assoc in Heq.
           apply app_inj_tail in Heq as [-> <-].
           exists before, after. split; [done|].
           rewrite fmap_app in Hnin. intros Hin. destruct Hnin.
           apply elem_of_app. by left.
Qed.

Lemma NoDup_fst_unique (l : list (K * V)) k v1 v2 :
  NoDup l.*1 -> (k, v1) ∈ l -> (k, v2) ∈ l -> v1 = v2.
Proof.
  induction l as [|[k0 v0] l IH]; [by intros _ ?%not_elem_of_nil|].
  simpl. intros [Hk0 Hnd]%NoDup_cons H1 H2.
  assert (Hfst : forall v, (k0, v) ∈ l -> False).
  { intros v Hv. destruct Hk0. change k0 with (k0, v).1.
    by apply list_elem_of_fmap_2. }
  apply elem_of_cons in H1 as [H1|H1]; apply elem_of_cons in H2 as [H2|H2].
  - congruence.
  - injection H1 as -> ->. by destruct (Hfst v2).
  - injection H2 as -> ->. by destruct (Hfst v1).
  - by apply IH.
Qed.

Lemma dict_get_None d k : dict_get d k = None <-> k ∉ dict_keys d.
Proof.
  rewrite <- dict_get_is_Some. destruct (dict_get d k) as [v|]; split.
  - done.
  - intros H. destruct H. by eexists.
  - intros _ [? ?]. done.
  - done.
Qed.
End DirectoryFacts.

Section Directory.
Variable LANGUAGES : list (str * str).
Variable lower : str -> str.
Variable capitalize : str -> str.

(** X12: where two codes of [LANGUAGES] have the same name, the later
    one is the code of that name: [language_mapping] maps a name to a code
    exactly when the pair stands in [LANGUAGES] with no later pair of the
    same name. *)
Theorem language_mapping_last_code (name code : str) :
  dict_get (language_mapping LANGUAGES) name = Some code <->
  exists before after,
    LANGUAGES = before ++ (code, name) :: after /\ (name ∉ after.*2).
Proof.
  unfold language_mapping. rewrite dict_of_get_last. split.
  - intros (before & after & Heq & Hnin).
    apply fmap_app_inv in Heq as (b & rest & Hb & Hrest & ->).
    symmetry in Hrest.
    apply fmap_cons_inv in Hrest as ([c n] & a & [= -> ->] & Ha & ->).
    exists b, a. split; [done|]. rewrite Ha in Hnin.
    by rewrite <- list_fmap_compose in Hnin.
  - intros (before & after & -> & Hnin).
    exists (map (fun cn : str * str => (cn.2, cn.1)) before),
      (map (fun cn : str * str => (cn.2, cn.1)) after).
    split; [by rewrite map_app|].
    by rewrite <- list_fmap_compose.
Qed.

(** X13: a language chosen in the side bar is shown under its own name:
    for a lower-case name of [LANGUAGES] (whose codes are distinct, as the
    keys of a dict are), [get_language_code] gives a code of that name, and
    [get_language_name] of that code is the name, capitalized. *)
Theorem language_name_round_trip (name : str) :
  NoDup LANGUAGES.*1 ->
  name ∈ LANGUAGES.*2 ->
  lower name = name ->
  (get_language_code LANGUAGES lower name, name) ∈ LANGUAGES
  /\ get_language_name LANGUAGES capitalize
       (get_language_code LANGUAGES lower name)
     = capitalize name.
Proof.
  intros Hnd Hin Hlow.
  assert (Hkey : name ∈ dict_keys (language_mapping LANGUAGES)).
  { unfold language_mapping. rewrite dict_of_keys, <- list_fmap_compose.
    exact Hin. }
  apply dict_get_is_Some in Hkey as [code Hcode].
  unfold get_language_code. rewrite Hlow, Hcode. simpl.
  assert (HL : (code, name) ∈ LANGUAGES).
  { apply dict_of_get, list_elem_of_fmap in Hcode as ([c n] & Heq & HL).
    simpl in Heq. by injection Heq as -> ->. }
  split; [done|].
  assert (Hc : code ∈ dict_keys (language_code_to_name LANGUAGES)).
  { unfold language_code_to_name. rewrite dict_of_keys, <- list_fmap_compose.
    apply dict_get_elem_of in Hcode.
    change code with ((snd ∘ (fun nc : str * str => (nc.1, nc.2))) (name, code)).
    apply list_elem_of_fmap. by exists (name, code). }
  apply dict_get_is_Some in Hc as [name' Hname'].
  unfold get_language_name. rewrite Hname'. simpl. f_equal.
  apply dict_of_get, list_elem_of_fmap in Hname' as ([n c] & Heq & Hin').
  simpl in Heq. injection Heq as -> ->.
  apply (dict_elem_of_get _ _ _ (dict_of_NoDup _)) in Hin'.
  apply dict_of_get, list_elem_of_fmap in Hin' as ([c' n'] & Heq & HL').
  simpl in Heq. injection Heq as -> ->.
  symmetry. by apply (NoDup_fst_unique LANGUAGES c').
Qed.

(** X14: unknown names and codes pass through: [get_language_code] returns
    a name as it is given when its lower-case form is no name of
    [LANGUAGES], and [get_language_name] of a code that is no code of
    [LANGUAGES] is that code, capitalized. *)
Theorem unknown_language_passes_through (x : str) :
  (lower x ∉ LANGUAGES.*2 -> get_language_code LANGUAGES lower x = x)
  /\ (x ∉ LANGUAGES.*1 ->
      get_language_name LANGUAGES capitalize x = capitalize x).
Proof.
  split.
  - intros Hnin. unfold get_language_code.
    assert (dict_get (language_mapping LANGUAGES) (lower x) = None) as ->;
      [|done].
    apply dict_get_None. unfold language_mapping.
    by rewrite dict_of_keys, <- list_fmap_compose.
  - intros Hnin. unfold get_language_name.
    assert (dict_get (language_code_to_name LANGUAGES) x = None) as ->;
      [|done].
    apply dict_get_None. intros Hin. destruct Hnin.
    apply dict_get_is_Some in Hin as [n Hn].
    apply dict_of_get, list_elem_of_fmap in Hn as ([n' c] & Heq & Hin).
    simpl in Heq. injection Heq as -> ->.
    apply (dict_elem_of_get _ _ _ (dict_of_NoDup _)) in Hin.
    apply dict_of_get, list_elem_of_fmap in Hin as ([c' n''] & Heq & HL).
    simpl in Heq. injection Heq as -> ->.
    change c' with (c', n'').1. by apply list_elem_of_fmap_2.
Qed.
End Directory.

(** ** The language boxes *)

Lemma py_index_found (x : str) (l : list str) :
  x ∈ l ->
  exists i, py_index x l = Ok i /\ l !! i = Some x /\ (i < length l)%nat.
Proof.
  induction l as [|y l IH]; [by intros ?%not_elem_of_nil|].
  intros Hin. simpl. destruct (decide (y = x)) as [->|Hne].
  - exists 0%nat. split; [done|]. split; [done|]. simpl. lia.
  - apply elem_of_cons in Hin as [?|Hin]; [congruence|].
    destruct (IH Hin) as (i & -> & Hi & Hlt).
    exists (S i). split; [done|]. split; [done|]. simpl. lia.
Qed.

Lemma default_index_in_range (name : str) (all : list str) :
  all <> [] ->
  exists i,
    default_index name all = Ok i
    /\ (i < length all)%nat
    /\ (name ∈ all -> all !! i = Some name)
    /\ (name ∉ all -> i = 0%nat).
Proof.
  intros Hne. unfold default_index.
  destruct (decide (name ∈ all)) as [Hin|Hnin].
  - rewrite bool_decide_eq_true_2 by done.
    destruct (py_index_found name all Hin) as (i & -> & Hi & Hlt).
    exists i. by repeat split.
  - rewrite bool_decide_eq_false_2 by done. exists 0%nat.
    repeat split; [|done]. destruct all; [done|simpl; lia].
Qed.

(** X15: with at least two languages, the source and the target box
    start at two different entries of the sorted list of names, both within
    the list; the source box starts at "english" when that is a name, and
    the target box starts at "spanish" when both are names. *)
Theorem default_languages_differ (LANGUAGES : list (str * str)) :
  (2 <= length LANGUAGES)%nat ->
  let all := all_languages LANGUAGES in
  exists i j,
    default_language_indices LANGUAGES = Ok (i, j)
    /\ length all = length LANGUAGES
    /\ (i < length all)%nat
    /\ (j < length all)%nat
    /\ i <> j
    /\ (lit "english" ∈ LANGUAGES.*2 -> all !! i = Some (lit "english"))
    /\ (lit "english" ∈ LANGUAGES.*2 -> lit "spanish" ∈ LANGUAGES.*2 ->
        all !! j = Some (lit "spanish")).
Proof.
  intros Hlen all.
  assert (Hperm : all ≡ₚ LANGUAGES.*2) by apply merge_sort_Permutation.
  assert (Hall : length all = length LANGUAGES).
  { by rewrite Hperm, length_fmap. }
  assert (Hne : all <> []).
  { intros H. rewrite H in Hall. simpl in Hall. lia. }
  unfold default_language_indices. fold all.
  destruct (default_index_in_range (lit "english") all Hne)
    as (i & -> & Hi & Hie & _).
  destruct (default_index_in_range (lit "spanish") all Hne)
    as (j & -> & Hj & Hje & _).
  destruct (decide (j = i)) as [->|Hji].
  - destruct (length all) as [|n] eqn:Hn; [lia|].
    exists i, ((i + 1) mod S n)%nat. split; [done|]. split; [done|].
    split; [done|]. split; [apply Nat.mod_upper_bound; lia|]. split.
    + destruct (decide (i + 1 = S n)%nat) as [Heq|Hneq].
      * rewrite Heq, Nat.Div0.mod_same. lia.
      * rewrite Nat.mod_small; lia.
    + split; [by rewrite <- Hperm|].
      rewrite <- !Hperm. intros He Hs.
      specialize (Hie He). specialize (Hje Hs). rewrite Hie in Hje.
      by injection Hje.
  - exists i, j. split; [done|]. split; [done|]. split; [done|].
    split; [done|]. split; [done|].
    rewrite <- !Hperm. split; [done|]. intros _. done.
Qed.

(** ** The session duration *)

(** X16: the session duration shown has its hours in 0..23 and its
    minutes in 0..59, and whole days are dropped: a day later the same
    duration is shown; within the first day it is the elapsed time in whole
    minutes. *)
Theorem session_duration_drops_days (now start : Z) :
  let hm := uptime_hours_minutes now start in
  (0 <= hm.1 <= 23)%Z
  /\ (0 <= hm.2 <= 59)%Z
  /\ uptime_str (now + 86400 * 1000000) start = uptime_str now start
  /\ ((0 <= now - start < 86400 * 1000000)%Z ->
      (3600 * hm.1 + 60 * hm.2 <= (now - start) / 1000000
       < 3600 * hm.1 + 60 * hm.2 + 60)%Z).
Proof.
  assert (Hday : timedelta_seconds (now + 86400 * 1000000) start
                 = timedelta_seconds now start).
  { unfold timedelta_seconds. Z.div_mod_to_equations. lia. }
  unfold uptime_str, uptime_hours_minutes. rewrite Hday.
  unfold timedelta_seconds. simpl.
  split; [Z.div_mod_to_equations; lia|].
  split; [Z.div_mod_to_equations; lia|].
  split; [done|].
  intros Hfirst. Z.div_mod_to_equations. lia.
Qed.

(** ** The statistics *)

Lemma dict_set_values_sum (d : dict str Z) (k : str) (v : Z) :
  foldr Z.add 0%Z (dict_set d k v).*2
  = (foldr Z.add 0 d.*2 - default 0 (dict_get d k) + v)%Z.
Proof.
  induction d as [|[k0 v0] d IH]; cbn [dict_set dict_get].
  - simpl. lia.
  - destruct (decide (k0 = k)) as [->|Hne].
    + simpl. lia.
    + rewrite !fmap_cons. cbn [foldr]. rewrite IH. lia.
Qed.

Lemma count_targets_NoDup (h : list HistoryEntry) :
  NoDup (dict_keys (count_targets h)).
Proof.
  induction h as [|e h IH] using rev_ind; [apply NoDup_nil_2|].
  rewrite count_targets_snoc. by apply dict_set_NoDup.
Qed.

Lemma count_targets_values_sum (h : list HistoryEntry) :
  foldr Z.add 0%Z (count_targets h).*2 = Z.of_nat (length h).
Proof.
  induction h as [|e h IH] using rev_ind; [done|].
  rewrite count_targets_snoc, dict_set_values_sum, IH, length_app. simpl. lia.
Qed.

Lemma max_from_elem_of {K : Type} (f : K -> Z) (best : K) (rest : list K) :
  max_from f best rest ∈ best :: rest.
Proof.
  destruct (max_from_spec f best rest) as (k1 & k2 & -> & _).
  apply elem_of_app. right. apply list_elem_of_here.
Qed.

Lemma most_used_language_listed (h : list HistoryEntry) :
  h <> [] ->
  exists m,
    most_used_language h = Ok m /\ m ∈ dict_keys (count_targets h).
Proof.
  intros Hne. destruct h as [|e0 h0]; [done|].
  assert (Hin : to_lang_name e0 ∈ dict_keys (count_targets (e0 :: h0))).
  { apply count_targets_keys. simpl. apply list_elem_of_here. }
  unfold most_used_language, py_max.
  destruct (dict_keys (count_targets (e0 :: h0))) as [|k0 ks] eqn:Hk.
  - by apply not_elem_of_nil in Hin.
  - eexists. split; [done|]. apply max_from_elem_of.
Qed.

(** X17: [display_stats] never raises and leaves the session as it is;
    it shows nothing exactly when the setting is off.  Otherwise it shows
    the counter and the duration; for an empty history "None" and no chart;
    and for a history with entries a chart that lists every target language
    of the history once, each with the number of its entries (at least 1),
    the counts adding up to the length of the history, and as most used
    language one of the chart's languages. *)
Theorem display_stats_view (now : Z) (s : SessionState) :
  let a := app_state s in
  let h := conversation_history a in
  exists view,
    display_stats now s = (Ok view, s)
    /\ (view = None <-> show_stats (settings a) = false)
    /\ (forall v, view = Some v ->
          metric_total v = total_translations a
          /\ metric_duration v = uptime_str now (start_time a)
          /\ (h = [] -> metric_most_used v = lit "None" /\ chart v = None)
          /\ (h <> [] ->
              exists langs counts,
                chart v = Some (langs, counts)
                /\ NoDup langs
                /\ length counts = length langs
                /\ (forall l, l ∈ langs <-> l ∈ map to_lang_name h)
                /\ (forall i l c,
                      langs !! i = Some l -> counts !! i = Some c ->
                      c = Z.of_nat (target_count l h) /\ (1 <= c)%Z)
                /\ foldr Z.add 0%Z counts = Z.of_nat (length h)
                /\ metric_most_used v ∈ langs)).
Proof.
  intros a h. unfold display_stats, bind, get_app. fold a.
  destruct (show_stats (settings a)) eqn:Hshow; simpl.
  2:{ exists None. split; [done|]. split; [done|]. by intros v [=]. }
  fold h. destruct (decide (h = [])) as [Hh|Hh].
  - rewrite Hh. simpl. unfold call, ret. eexists. split; [done|].
    split; [by split|].
    intros v [= <-]. simpl. split; [done|]. split; [done|]. split; [done|].
    by intros [].
  - destruct (most_used_language_listed h Hh) as (m & -> & Hm).
    unfold ret.
    exists (Some (mkStatsView (total_translations a)
                    (uptime_str now (start_time a)) m
                    (Some (dict_keys (count_targets h),
                           (count_targets h).*2)))).
    split; [by destruct h|]. split; [by split|].
    intros v [= <-]. simpl. split; [done|]. split; [done|].
    split; [done|]. intros _.
    exists (dict_keys (count_targets h)), (count_targets h).*2.
    split; [done|]. split; [apply count_targets_NoDup|].
    split; [unfold dict_keys; by rewrite !length_fmap|].
    split; [intros l; apply count_targets_keys|]. split; [|split].
    + intros i l c Hl Hc. unfold dict_keys in Hl.
      apply list_lookup_fmap_Some in Hl as ([l1 c1] & -> & Hi).
      apply list_lookup_fmap_Some in Hc as ([l2 c2] & -> & Hi').
      assert (Heq : Some (l1, c1) = Some (l2, c2)) by congruence.
      injection Heq as <- <-. simpl. clear Hi'.
      apply list_elem_of_lookup_2 in Hi.
      apply dict_elem_of_get in Hi; [|apply count_targets_NoDup].
      rewrite count_targets_get in Hi.
      destruct (decide (target_count l1 h = 0%nat)) as [|Hpos]; [done|].
      injection Hi as <-. split; [done|lia].
    + apply count_targets_values_sum.
    + done.
Qed.

(** ** The list of the History tab *)

Section HistoryList.
Variable lower : str -> str.

Lemma filtered_history_filter (term : str) (h : list HistoryEntry) :
  term <> [] ->
  filtered_history lower term h = filter (entry_matches lower term) h.
Proof.
  intros Hne. unfold filtered_history.
  destruct term as [|c term]; [done|]. simpl.
  induction h as [|e h IH]; [done|].
  simpl. rewrite filter_cons, <- IH.
  destruct (decide (entry_matches lower (c :: term) e)) as [Hm|Hm].
  - destruct Hm as [Hm|Hm]; apply str_in_substring in Hm; rewrite Hm;
      by rewrite ?orb_true_r.
  - destruct (str_in _ _ || str_in _ _) eqn:Hb; [|done].
    destruct Hm. apply orb_true_iff in Hb as [Hb|Hb];
      apply str_in_substring in Hb; [by left|by right].
Qed.

Lemma filtered_history_sublist (term : str) (h : list HistoryEntry) :
  filtered_history lower term h `sublist_of` h.
Proof.
  destruct (decide (term = [])) as [->|Hne]; [done|].
  rewrite filtered_history_filter by done. apply sublist_filter.
Qed.

Lemma substring_trans (a b c : str) :
  substring a b -> substring b c -> substring a c.
Proof.
  intros (b1 & b2 & ->) (c1 & c2 & ->).
  exists (c1 ++ b1), (b2 ++ c2). by rewrite <- !app_assoc.
Qed.

(** X18: the expanders of the History tab are numbered downwards from
    the number of listed entries: the number of an expander is the position
    (from 1) of its entry in the filtered list, not in the whole history;
    only the first expander is open, and it holds the newest listed
    entry. *)
Theorem history_rows_numbering (term : str) (h : list HistoryEntry) :
  let filtered := filtered_history lower term h in
  let rows := history_rows lower term h in
  length rows = length filtered
  /\ (forall i n e b,
        rows !! i = Some (n, e, b) ->
        n = (Z.of_nat (length filtered) - Z.of_nat i)%Z
        /\ (1 <= n <= Z.of_nat (length filtered))%Z
        /\ filtered !! Z.to_nat (n - 1) = Some e
        /\ (b = true <-> i = 0%nat))
  /\ (forall e,
        last filtered = Some e ->
        rows !! 0%nat = Some (Z.of_nat (length filtered), e, true)).
Proof.
  intros filtered rows. unfold rows, history_rows. fold filtered.
  split; [by rewrite length_imap, length_reverse|]. split.
  - intros i n e b. rewrite list_lookup_imap.
    destruct (reverse filtered !! i) as [e'|] eqn:Hi; [|done].
    simpl. intros [= <- <- <-].
    assert (Hlt : (i < length filtered)%nat).
    { apply lookup_lt_Some in Hi. by rewrite length_reverse in Hi. }
    rewrite reverse_lookup in Hi by done.
    split; [done|]. split; [lia|]. split.
    + rewrite <- Hi. f_equal. lia.
    + rewrite bool_decide_eq_true. done.
  - intros e He. rewrite list_lookup_imap.
    rewrite last_lookup in He.
    assert (Hlt : (0 < length filtered)%nat).
    { apply lookup_lt_Some in He. lia. }
    rewrite reverse_lookup by done.
    replace (length filtered - S 0)%nat with (pred (length filtered)) by lia.
    rewrite He. simpl. rewrite Z.sub_0_r. done.
Qed.

(** X19: a longer search term narrows the list: when the lowered term
    [t1] occurs in the lowered term [t2], every entry listed for [t2] is
    listed for [t1], in the same order. *)
Theorem longer_search_term_narrows (t1 t2 : str) (h : list HistoryEntry) :
  t2 <> [] ->
  substring (lower t1) (lower t2) ->
  filtered_history lower t2 h `sublist_of` filtered_history lower t1 h
  /\ (forall e,
        e ∈ filtered_history lower t2 h -> e ∈ filtered_history lower t1 h).
Proof.
  intros Hne2 Hsub.
  assert (Hs : filtered_history lower t2 h
               `sublist_of` filtered_history lower t1 h).
  { destruct (decide (t1 = [])) as [->|Hne1].
    { apply filtered_history_sublist. }
    rewrite !filtered_history_filter by done.
    induction h as [|e h IH]; [done|].
    rewrite !filter_cons.
    destruct (decide (entry_matches lower t2 e)) as [Hm2|Hm2].
    - rewrite decide_True.
      + by apply sublist_skip.
      + destruct Hm2 as [Hm|Hm]; [left|right];
          by apply (substring_trans _ (lower t2)).
    - destruct (decide (entry_matches lower t1 e)); [|done].
      by apply sublist_cons. }
  split; [done|]. intros e He. by apply (elem_of_sublist _ _ _ He Hs).
Qed.

End HistoryList.

(** ** app2.py *)

Section App2Properties.
Variable LANGUAGES : list (str * str).

Local Ltac app2_unfold :=
  unfold App2.translate_and_speak, App2.translate_text, App2.text_to_speech,
    App2.finally, App2.try_except, App2.bind, App2.call, App2.set_status,
    App2.set_translated_text, App2.append_history, App2.st_error,
    App2.set_is_translating, App2.set_current_langs, App2.modify, App2.get,
    App2.ret, App2.raise.

Local Ltac same :=
  simpl; split; [done|]; split; [done|]; split; [done|]; split; [done|];
  by left.

Lemma translate_and_speak_step (sp : Speech) (translator : Translator)
    (tts : App2.TextToSpeech) (s : App2.State) :
  exists s',
    App2.translate_and_speak sp translator tts s = (Ok tt, s')
    /\ app2_step s s'.
Proof.
  destruct s as [it st tt0 h fl tl errs].
  destruct sp as [mic adj lis rec]. app2_unfold. unfold app2_step. simpl.
  assert (Hpre : forall x : list str, errs `prefix_of` errs ++ x).
  { intros x. by apply prefix_app_r. }
  destruct mic as [[]|e1]; simpl; [|eexists; split; [done|]; same].
  destruct adj as [[]|e2]; simpl; [|eexists; split; [done|]; same].
  destruct (lis 5%Z) as [[]|e3]; simpl; [|eexists; split; [done|]; same].
  destruct (rec fl) as [spoken|e4]; simpl.
  2:{ destruct (exn_cls e4); simpl; eexists; (split; [done|]); same. }
  destruct (translator spoken fl tl) as [r|e5]; simpl.
  2:{ eexists. split; [done|]. simpl. split; [done|]. split; [done|].
      split; [done|]. split; [apply Hpre|]. by left. }
  destruct (tts (text r) tl) as [[]|e6]; simpl.
  - eexists. split; [done|]. simpl. split; [done|]. split; [done|].
    split; [done|]. split; [done|]. right. eexists. by repeat split.
  - eexists. split; [done|]. simpl. split; [done|]. split; [done|].
    split; [done|]. split; [apply Hpre|]. right. eexists. by repeat split.
Qed.

(** X20: no press of a button of app2.py raises, whatever the
    microphone, the recogniser, the translator and the speaker do; after
    Start Listening and after Stop Listening the session is not translating;
    an action adds at most one entry at the end of the history and removes
    none, and the error boxes of the page only grow. *)
Theorem app2_actions_never_raise (act : App2.action) (s : App2.State) :
  exists s',
    App2.handle LANGUAGES act s = (Ok tt, s')
    /\ (match act with
        | App2.SelectLanguages _ _ =>
            App2.is_translating s' = App2.is_translating s
        | _ => App2.is_translating s' = false
        end)
    /\ App2.conversation_history s
         `prefix_of` App2.conversation_history s'
    /\ (length (App2.conversation_history s')
        <= S (length (App2.conversation_history s)))%nat
    /\ App2.error_boxes s `prefix_of` App2.error_boxes s'.
Proof.
  destruct act as [f t|sp translator tts|]; unfold App2.handle.
  - app2_unfold. eexists. split; [done|]. simpl. repeat split; try done. lia.
  - unfold App2.bind at 1, App2.set_is_translating at 1, App2.modify at 1.
    set (s1 := App2.mkState true _ _ _ _ _ _).
    destruct (translate_and_speak_step sp translator tts s1)
      as (s' & -> & Hit & _ & _ & Herr & Hh).
    exists s'. split; [done|]. split; [done|].
    destruct Hh as [[-> _]|(e & -> & _)]; simpl.
    + split; [done|]. split; [lia|done].
    + split; [by apply prefix_app_r|]. rewrite length_app. simpl.
      split; [lia|done].
  - app2_unfold. eexists. split; [done|]. simpl. repeat split; try done. lia.
Qed.

(** X21: when the speech is heard and translated, the translation is
    shown and recorded and the status is "Translation complete" whether or
    not it could be spoken aloud: a failure of the speaker only adds an error
    box.  The spoken text is sent to the translator as it is, blank or
    not. *)
Theorem app2_translation_kept_when_speaker_fails (sp : Speech)
    (translator : Translator) (tts : App2.TextToSpeech) (s : App2.State)
    (spoken : str) (r : Translated) :
  microphone sp = Ok tt ->
  adjust_for_ambient_noise sp = Ok tt ->
  listen sp 5 = Ok tt ->
  recognize_google sp (App2.current_from_lang s) = Ok spoken ->
  translator spoken (App2.current_from_lang s) (App2.current_to_lang s)
  = Ok r ->
  App2.translate_and_speak sp translator tts s
  = (Ok tt,
     App2.mkState false msg_complete
       (App2.shown_text (App2.current_from_lang s) (App2.current_to_lang s)
          spoken (text r))
       (App2.conversation_history s
          ++ [App2.mkEntry spoken (text r) (App2.current_from_lang s)
                (App2.current_to_lang s)])
       (App2.current_from_lang s) (App2.current_to_lang s)
       (App2.error_boxes s
          ++ match tts (text r) (App2.current_to_lang s) with
             | Ok _ => []
             | Raised e => [lit "Text-to-Speech error: " ++ exn_str e]
             end)).
Proof.
  destruct s as [it st tt0 h fl tl errs].
  destruct sp as [mic adj lis rec]. simpl.
  intros -> -> Hlis Hrec Htr. app2_unfold. simpl.
  rewrite Hlis. simpl. rewrite Hrec. simpl. rewrite Htr. simpl.
  destruct (tts (text r) tl) as [[]|e]; simpl; [|done].
  by rewrite app_nil_r.
Qed.

(** X22: when the translator fails, app2.py reports it in an error box
    only: the status stays at "Translating...", the history and the shown
    translation stay as they were, and the session is not translating. *)
Theorem app2_translation_failure_keeps_status (sp : Speech)
    (translator : Translator) (tts : App2.TextToSpeech) (s : App2.State)
    (spoken : str) (e : exn) :
  microphone sp = Ok tt ->
  adjust_for_ambient_noise sp = Ok tt ->
  listen sp 5 = Ok tt ->
  recognize_google sp (App2.current_from_lang s) = Ok spoken ->
  translator spoken (App2.current_from_lang s) (App2.current_to_lang s)
  = Raised e ->
  App2.translate_and_speak sp translator tts s
  = (Ok tt,
     App2.mkState false msg_translating (App2.translated_text s)
       (App2.conversation_history s)
       (App2.current_from_lang s) (App2.current_to_lang s)
       (App2.error_boxes s ++ [lit "Translation error: " ++ exn_str e])).
Proof.
  destruct s as [it st tt0 h fl tl errs].
  destruct sp as [mic adj lis rec]. simpl.
  intros -> -> Hlis Hrec Htr. app2_unfold. simpl.
  rewrite Hlis. simpl. rewrite Hrec. simpl. by rewrite Htr.
Qed.

(** X23: a failure before the translation changes only the status and
    the flag: no error box is added and the history and the shown
    translation stay as they were.  A failure [e] of the microphone, of the
    noise adjustment or of listening gives the status "Error: e", whatever
    the class of [e]; a failure of the recogniser gives "Could not
    understand audio" for [UnknownValueError], "Speech recognition error"
    for [RequestError], and "Error: e" for every other class. *)
Theorem app2_speech_failure_status (sp : Speech) (translator : Translator)
    (tts : App2.TextToSpeech) (s : App2.State) (e : exn) :
  let ends_with message :=
    App2.translate_and_speak sp translator tts s
    = (Ok tt,
       App2.mkState false message (App2.translated_text s)
         (App2.conversation_history s)
         (App2.current_from_lang s) (App2.current_to_lang s)
         (App2.error_boxes s)) in
  (microphone sp = Raised e -> ends_with (msg_error e))
  /\ (microphone sp = Ok tt ->
      adjust_for_ambient_noise sp = Raised e ->
      ends_with (msg_error e))
  /\ (microphone sp = Ok tt ->
      adjust_for_ambient_noise sp = Ok tt ->
      listen sp 5 = Raised e ->
      ends_with (msg_error e))
  /\ (microphone sp = Ok tt ->
      adjust_for_ambient_noise sp = Ok tt ->
      listen sp 5 = Ok tt ->
      recognize_google sp (App2.current_from_lang s) = Raised e ->
      ends_with
        (match exn_cls e with
         | UnknownValueError => msg_not_understood
         | RequestError => App2.msg_recognition_error
         | _ => msg_error e
         end)).
Proof.
  destruct s as [it st tt0 h fl tl errs].
  destruct sp as [mic adj lis rec]. simpl.
  split; [|split; [|split]].
  - intros ->. by app2_unfold.
  - intros -> ->. by app2_unfold.
  - intros -> -> Hlis. app2_unfold. simpl. by rewrite Hlis.
  - intros -> -> Hlis Hrec. app2_unfold. simpl. rewrite Hlis. simpl.
    rewrite Hrec. simpl. by destruct (exn_cls e).
Qed.

(** X24: the page of app2.py lists the last five entries of the
    history, newest first; the history itself has no limit. *)
Theorem app2_shown_history_last_five (h : list App2.Entry) :
  length (App2.shown_history h) = Nat.min 5 (length h)
  /\ (forall i,
        (i < Nat.min 5 (length h))%nat ->
        App2.shown_history h !! i = h !! (length h - 1 - i)%nat)
  /\ (forall e, e ∈ App2.shown_history h -> e ∈ h)
  /\ ((length h <= 5)%nat -> App2.shown_history h = reverse h).
Proof.
  unfold App2.shown_history.
  rewrite (py_slice_from_neg 5) by lia.
  replace (Z.to_nat 5) with 5%nat by done.
  split; [rewrite length_reverse, length_drop; lia|]. split; [|split].
  - intros i Hi. rewrite reverse_lookup by (rewrite length_drop; lia).
    rewrite lookup_drop, length_drop. f_equal. lia.
  - intros e He. rewrite elem_of_reverse in He.
    by apply (elem_of_sublist _ _ _ He), sublist_drop.
  - intros Hle. replace (length h - 5)%nat with 0%nat by lia.
    by rewrite drop_0.
Qed.

(** X25: app2.py looks a name up as it is written: a name of
    [LANGUAGES] is turned into a code of that name, and any other text is
    passed through unchanged. *)
Theorem app2_language_code (name : str) :
  (name ∈ LANGUAGES.*2 ->
   (App2.get_language_code LANGUAGES name, name) ∈ LANGUAGES)
  /\ (name ∉ LANGUAGES.*2 -> App2.get_language_code LANGUAGES name = name).
Proof.
  unfold App2.get_language_code.
  assert (Hkeys : name ∈ dict_keys (language_mapping LANGUAGES)
                  <-> name ∈ LANGUAGES.*2).
  { unfold language_mapping. by rewrite dict_of_keys, <- list_fmap_compose. }
  split.
  - intros Hin. apply Hkeys, dict_get_is_Some in Hin as [code Hc].
    rewrite Hc. simpl. apply dict_of_get in Hc.
    apply list_elem_of_fmap in Hc as ([c n] & [= -> ->] & Hcn). done.
  - intros Hnin. rewrite <- Hkeys, <- dict_get_None in Hnin.
    by rewrite Hnin.
Qed.

End App2Properties.

(** ** Closed instances of the further properties *)

Lemma not_all_space_cons (c : N) (s : str) :
  py_isspace c = false -> ~ all_space (c :: s).
Proof.
  intros Hc H. apply Forall_cons in H as [H _]. congruence.
Qed.

Lemma speech_translation_success_witness :
  let s := ready_session in
  let r := mkTranslated (lit "es" ++ lit ":" ++ lit "hello") in
  let s' :=
    exec (translate_speech sample_LANGUAGES ascii_str_capitalize
            (hearing (lit "hello")) echo_translator (lit "12:00")) s in
  total_translations (app_state s') = 1%Z
  /\ last (conversation_history (app_state s'))
     = Some (speech_entry sample_LANGUAGES ascii_str_capitalize s
               (lit "12:00") (lit "hello") r)
  /\ status_class (app_state s') = lit "status-ready".
Proof.
  intros s r s'.
  destruct (speech_translation_success sample_LANGUAGES ascii_str_capitalize
              (hearing (lit "hello")) echo_translator (lit "12:00") s
              (lit "hello") r)
    as (Htotal & _ & _ & _ & _ & _ & Hlast & _ & Hcls & _);
    [reflexivity | reflexivity | reflexivity | reflexivity
    | by apply not_all_space_cons | reflexivity | vm_compute; discriminate |].
  split; [exact Htotal|]. split; [exact Hlast|exact Hcls].
Defined.

Lemma text_box_kept_witness :
  let s := with_text_input (lit "hello") ready_session in
  let ok :=
    text_input_translation sample_LANGUAGES ascii_str_capitalize
      echo_translator (lit "12:00") s in
  let failed :=
    text_input_translation sample_LANGUAGES ascii_str_capitalize
      failing_translator (lit "12:00") s in
  (text_input ok.2 = lit "hello"
   /\ exn_cls
        (match ok.1 with Ok _ => mkExn OtherException [] | Raised e => e end)
      = StreamlitAPIException
   /\ status_class (app_state ok.2) = lit "status-processing"
   /\ total_translations (app_state ok.2) = 1%Z)
  /\ text_input failed.2 = lit "hello"
  /\ failed.1 = Ok tt
  /\ status_class (app_state failed.2) = lit "status-error".
Proof.
  intros s ok failed.
  assert (Hs : ~ all_space (text_input s)) by (by apply not_all_space_cons).
  split.
  - destruct (text_box_kept_after_translation sample_LANGUAGES
                ascii_str_capitalize echo_translator (lit "12:00") s Hs)
      as (Htxt & Hrun & _ & Hcls & _ & Htotal).
    split; [exact Htxt|]. split; [reflexivity|].
    split; [exact Hcls|exact Htotal].
  - destruct (text_box_kept_after_translation sample_LANGUAGES
                ascii_str_capitalize failing_translator (lit "12:00") s Hs)
      as (Htxt & Hrun & _ & _ & _ & _ & Hcls).
    split; [exact Htxt|]. split; [exact Hrun|exact Hcls].
Defined.

Lemma counter_covers_history_witness :
  let s' :=
    run_actions sample_LANGUAGES ascii_str_lower ascii_str_capitalize
      six_translations ready_session in
  history_within_total ready_session
  /\ history_within_total s'
  /\ (0 <= total_translations (app_state s') <= 12)%Z.
Proof.
  intros s'.
  assert (H0 : history_within_total ready_session).
  { vm_compute. discriminate. }
  split; [exact H0|].
  exact (counter_covers_history sample_LANGUAGES ascii_str_lower
           ascii_str_capitalize six_translations ready_session H0).
Defined.

Lemma save_to_favorites_repeats_witness :
  let s := translated_session in
  let e :=
    text_entry sample_LANGUAGES ascii_str_capitalize
      (with_text_input (lit "hello") ready_session) (lit "12:00")
      (lit "hello") (mkTranslated (lit "es" ++ lit ":" ++ lit "hello")) in
  last (conversation_history (app_state s)) = Some e
  /\ favorites
       (app_state
          (run_actions sample_LANGUAGES ascii_str_lower ascii_str_capitalize
             [SaveToFavorites; SaveToFavorites] s))
     = [e; e].
Proof.
  intros s e. split; [reflexivity|].
  apply (save_to_favorites_repeats sample_LANGUAGES ascii_str_lower
           ascii_str_capitalize s
           (mkTranslatedText (lit "hello") (lit "es" ++ lit ":" ++ lit "hello")
              (lit "English") (lit "Spanish")) e);
    reflexivity.
Defined.

Lemma translate_then_save_witness :
  let s := with_text_input (lit "hello") ready_session in
  let r := mkTranslated (lit "es" ++ lit ":" ++ lit "hello") in
  favorites
    (app_state
       (run_actions sample_LANGUAGES ascii_str_lower ascii_str_capitalize
          [TranslateText echo_translator (lit "12:00"); SaveToFavorites] s))
  = [text_entry sample_LANGUAGES ascii_str_capitalize s (lit "12:00")
       (lit "hello") r].
Proof.
  intros s r.
  apply (translate_then_save sample_LANGUAGES ascii_str_lower
           ascii_str_capitalize echo_translator (lit "12:00") s r).
  - by apply not_all_space_cons.
  - reflexivity.
  - vm_compute. discriminate.
Defined.

Lemma history_is_last_entries_witness :
  let s := session_with_limit_2 in
  let s' :=
    run_actions sample_LANGUAGES ascii_str_lower ascii_str_capitalize
      (submit_all three_submissions) s in
  Forall (submission_succeeds s) three_submissions
  /\ length (conversation_history (app_state s')) = 2%nat
  /\ total_translations (app_state s') = 3%Z.
Proof.
  intros s s'.
  assert (Hsubs : Forall (submission_succeeds s) three_submissions).
  { repeat apply Forall_cons_2; [| | |apply Forall_nil_2];
      (split; [by apply not_all_space_cons|reflexivity]). }
  split; [exact Hsubs|].
  destruct (history_is_last_entries sample_LANGUAGES ascii_str_lower
              ascii_str_capitalize three_submissions s)
    as [Hh Ht]; [vm_compute; discriminate | vm_compute; discriminate
                | exact Hsubs |].
  split; [|exact Ht]. fold s' in Hh. rewrite Hh. reflexivity.
Defined.

Lemma settings_stay_valid_witness :
  let acts :=
    [SetMaxHistory 5; SetSpeechTimeout 15; SetTheme (lit "Dark");
     SetShowStats false] in
  Forall widget_allows acts
  /\ settings_valid
       (settings
          (app_state
             (run_actions sample_LANGUAGES ascii_str_lower
                ascii_str_capitalize acts ready_session))).
Proof.
  intros acts.
  assert (Hacts : Forall widget_allows acts).
  { repeat apply Forall_cons_2; [| | | |apply Forall_nil_2]; simpl;
      [lia|lia|by right|done]. }
  split; [exact Hacts|].
  apply (settings_stay_valid sample_LANGUAGES ascii_str_lower
           ascii_str_capitalize acts ready_session).
  - intros t _. reflexivity.
  - exact Hacts.
  - split; [simpl; lia|]. split; [simpl; lia|]. by left.
Defined.

Lemma language_name_round_trip_witness :
  (lit "he", lit "hebrew") ∈ sample_LANGUAGES
  /\ get_language_code sample_LANGUAGES ascii_str_lower (lit "hebrew")
     = lit "he"
  /\ get_language_name sample_LANGUAGES ascii_str_capitalize (lit "he")
     = lit "Hebrew".
Proof.
  destruct (language_name_round_trip sample_LANGUAGES ascii_str_lower
              ascii_str_capitalize (lit "hebrew")) as [Hin Hname].
  - apply (bool_decide_unpack _). by vm_compute.
  - apply (bool_decide_unpack _). by vm_compute.
  - reflexivity.
  - split; [exact Hin|]. split; [reflexivity|exact Hname].
Defined.

Lemma default_languages_differ_witness :
  (2 <= length sample_LANGUAGES)%nat
  /\ exists i j,
       default_language_indices sample_LANGUAGES = Ok (i, j)
       /\ i <> j
       /\ all_languages sample_LANGUAGES !! i = Some (lit "english")
       /\ all_languages sample_LANGUAGES !! j = Some (lit "spanish").
Proof.
  assert (Hlen : (2 <= length sample_LANGUAGES)%nat) by (simpl; lia).
  split; [exact Hlen|].
  destruct (default_languages_differ sample_LANGUAGES Hlen)
    as (i & j & Hrun & _ & _ & _ & Hne & Hi & Hj).
  assert (He : lit "english" ∈ sample_LANGUAGES.*2).
  { apply (bool_decide_unpack _). by vm_compute. }
  assert (Hs : lit "spanish" ∈ sample_LANGUAGES.*2).
  { apply (bool_decide_unpack _). by vm_compute. }
  exists i, j. split; [exact Hrun|]. split; [exact Hne|].
  split; [exact (Hi He)|exact (Hj He Hs)].
Defined.

Lemma longer_search_term_narrows_witness :
  let h := [spanish_entry; french_entry] in
  substring (ascii_str_lower (lit "OL")) (ascii_str_lower (lit "Hol"))
  /\ filtered_history ascii_str_lower (lit "Hol") h
       `sublist_of` filtered_history ascii_str_lower (lit "OL") h.
Proof.
  intros h.
  assert (Hsub : substring (ascii_str_lower (lit "OL"))
                   (ascii_str_lower (lit "Hol"))).
  { apply str_in_substring. reflexivity. }
  split; [exact Hsub|].
  apply (longer_search_term_narrows ascii_str_lower (lit "OL") (lit "Hol") h);
    [discriminate|exact Hsub].
Defined.

Lemma app2_translation_kept_witness :
  App2.translate_and_speak (hearing (lit "hello")) echo_translator no_speaker
    app2_ready
  = (Ok tt,
     App2.mkState false msg_complete
       (App2.shown_text (lit "en") (lit "es") (lit "hello")
          (lit "es" ++ lit ":" ++ lit "hello"))
       [App2.mkEntry (lit "hello") (lit "es" ++ lit ":" ++ lit "hello")
          (lit "en") (lit "es")]
       (lit "en") (lit "es")
       [lit "Text-to-Speech error: " ++ lit "no audio device"]).
Proof.
  apply (app2_translation_kept_when_speaker_fails (hearing (lit "hello"))
           echo_translator no_speaker app2_ready (lit "hello")
           (mkTranslated (lit "es" ++ lit ":" ++ lit "hello")));
    reflexivity.
Defined.

Lemma app2_translation_failure_witness :
  App2.translate_and_speak (hearing (lit "hello")) failing_translator
    no_speaker app2_ready
  = (Ok tt,
     App2.mkState false msg_translating [] [] (lit "en") (lit "es")
       [lit "Translation error: " ++ lit "timed out"]).
Proof.
  apply (app2_translation_failure_keeps_status (hearing (lit "hello"))
           failing_translator no_speaker app2_ready (lit "hello")
           (mkExn OtherException (lit "timed out")));
    reflexivity.
Defined.

Lemma app2_speech_failure_witness :
  let timed_out := mkExn WaitTimeoutError (lit "listening timed out") in
  let deaf :=
    mkSpeech (Ok tt) (Ok tt) (fun _ => Raised timed_out)
      (fun _ => Ok (lit "hello")) in
  App2.translate_and_speak not_understood echo_translator no_speaker
    app2_ready
  = (Ok tt,
     App2.mkState false msg_not_understood [] [] (lit "en") (lit "es") [])
  /\ App2.translate_and_speak deaf echo_translator no_speaker app2_ready
     = (Ok tt,
        App2.mkState false (msg_error timed_out) [] [] (lit "en") (lit "es")
          []).
Proof.
  intros timed_out deaf. split.
  - destruct (app2_speech_failure_status not_understood echo_translator
                no_speaker app2_ready (mkExn UnknownValueError []))
      as (_ & _ & _ & H).
    apply H; reflexivity.
  - destruct (app2_speech_failure_status deaf echo_translator no_speaker
                app2_ready timed_out) as (_ & _ & H & _).
    apply H; reflexivity.
Defined.
